(** * Network-Simulator: optimistic send-money protocol over a mocked transport

    A shallow embedding of the TypeScript sources

    - [src/types.ts]                     (Transaction, SendMoneyRequest)
    - [src/mocks/handlers.ts]            (chaos mode, GET/POST /api/transactions)
    - [src/api/transactions.ts]          (fetchTransactions, sendMoney)
    - [src/hooks/useTransactions.ts]     (useSendMoney: onMutate/onError/onSuccess)
    - [src/components/SendMoneyForm.tsx] (validateForm, handleSubmit)
    - [src/main.tsx]                     (queryClient default options)

    together with the part of the JavaScript standard library these files
    call (strings, [parseFloat], IEEE-754 doubles).  Definitions come first,
    the properties of the program follow. *)

From Stdlib Require Import ZArith NArith QArith Qabs Qround Qpower.
From Stdlib Require Import Bool List String Ascii Lia Lqa DecimalZ.
Import ListNotations.

(* ================================================================== *)
(** ** The JavaScript values the program manipulates *)
(* ================================================================== *)

Module JS.

Local Open Scope Q_scope.

(** *** Strings

    A JavaScript string is a finite sequence of UTF-16 code units; [.length]
    counts code units. *)

Definition code_unit := N.
Definition jsstring := list code_unit.

(** String literals of the source (all of them are ASCII). *)
Definition js (s : string) : jsstring :=
  map N_of_ascii (list_ascii_of_string s).

Definition length (s : jsstring) : nat := List.length s.

(** [WhiteSpace] and [LineTerminator] code points of ECMAScript, the set
    removed by [String.prototype.trim] and skipped by [parseFloat]. *)
Definition isWhiteSpace (c : code_unit) : bool :=
  ((9 <=? c) && (c <=? 13)            (* TAB, LF, VT, FF, CR *)
   || (c =? 32)                       (* SPACE *)
   || (c =? 160)                      (* NO-BREAK SPACE *)
   || (c =? 5760)                     (* OGHAM SPACE MARK *)
   || ((8192 <=? c) && (c <=? 8202))  (* EN QUAD .. HAIR SPACE *)
   || (c =? 8232) || (c =? 8233)      (* LINE / PARAGRAPH SEPARATOR *)
   || (c =? 8239) || (c =? 8287)      (* NARROW NBSP, MEDIUM MATH SPACE *)
   || (c =? 12288)                    (* IDEOGRAPHIC SPACE *)
   || (c =? 65279))%N.                (* ZERO WIDTH NO-BREAK SPACE *)

Fixpoint trimStart (s : jsstring) : jsstring :=
  match s with
  | c :: rest => if isWhiteSpace c then trimStart rest else s
  | [] => []
  end.

Definition trimEnd (s : jsstring) : jsstring := rev (trimStart (rev s)).

Definition trim (s : jsstring) : jsstring := trimEnd (trimStart s).

Fixpoint startsWith (s prefix : jsstring) {struct prefix} : bool :=
  match prefix, s with
  | [], _ => true
  | p :: prefix', c :: s' => (c =? p)%N && startsWith s' prefix'
  | _ :: _, [] => false
  end.

(** [s.slice(start, end)] for the non-negative literal indices the source
    uses; both indices are clamped to the length. *)
Definition slice (s : jsstring) (start stop : nat) : jsstring :=
  firstn (stop - start) (skipn start s).

(** Truthiness of a string: only the empty string is falsy. *)
Definition truthy (s : jsstring) : bool :=
  match s with [] => false | _ :: _ => true end.

(** *** Numbers

    A Number is an IEEE-754 binary64 value.  A finite one is represented
    by the rational it denotes (so [-0] and [+0] are one value, which no
    comparison of the program can tell apart); the three special values
    are kept apart. *)

Inductive number : Type :=
| NaN : number
| PInf : number
| NInf : number
| Fin : Q -> number.

Definition Qlt_bool (x y : Q) : bool := negb (Qle_bool y x).

(** IEEE comparisons: every comparison with [NaN] is false. *)
Definition ltb (a b : number) : bool :=
  match a, b with
  | NaN, _ | _, NaN => false
  | Fin x, Fin y => Qlt_bool x y
  | NInf, NInf => false
  | NInf, _ => true
  | _, NInf => false
  | PInf, _ => false
  | Fin _, PInf => true
  end.

Definition leb (a b : number) : bool :=
  match a, b with
  | NaN, _ | _, NaN => false
  | Fin x, Fin y => Qle_bool x y
  | NInf, _ => true
  | _, NInf => false
  | PInf, PInf => true
  | PInf, Fin _ => false
  | Fin _, PInf => true
  end.

Definition gtb (a b : number) : bool := ltb b a.

Definition isNaN (a : number) : bool :=
  match a with NaN => true | _ => false end.

(** Rounding of an exact rational to the nearest binary64, ties to even
    ([RoundMVResult] of ECMAScript, and the rounding of every arithmetic
    operation). *)

(** [floor_log2 q] is the [e] with [2^e <= q < 2^(e+1)], for [q > 0]. *)
Definition floor_log2 (q : Q) : Z :=
  let e0 := (Z.log2 (Qnum q) - Z.log2 (Zpos (Qden q)))%Z in
  if Qlt_bool q (2 ^ e0) then (e0 - 1)%Z else e0.

Definition round_half_even (x : Q) : Z :=
  let f := Qfloor x in
  match Qcompare (x - inject_Z f) (1 # 2) with
  | Lt => f
  | Gt => (f + 1)%Z
  | Eq => if Z.even f then f else (f + 1)%Z
  end.

(** The unit in the last place of the binade of [q > 0]: 53 significant
    bits, gradual underflow below [2^-1022]. *)
Definition ulp (q : Q) : Q := 2 ^ (Z.max (floor_log2 q) (-1022) - 52)%Z.

Definition roundPos (q : Q) : Q :=
  inject_Z (round_half_even (q / ulp q)) * ulp q.

(** Results of magnitude [2^1024] or more overflow to an infinity. *)
Definition overflowThreshold : Q := 2 ^ 1024.

Definition roundToNumber (q : Q) : number :=
  match Qcompare q 0 with
  | Eq => Fin 0
  | Gt => let v := roundPos q in
          if Qle_bool overflowThreshold v then PInf else Fin (Qred v)
  | Lt => let v := roundPos (- q) in
          if Qle_bool overflowThreshold v then NInf else Fin (Qred (- v))
  end.

(** The rationals that are finite binary64 values: a significand of 53
    bits at most, scaled by a power of two no finer than [2^-1074], below
    the overflow threshold. *)
Definition binary64 (q : Q) : Prop :=
  exists m e : Z,
    q == inject_Z m * 2 ^ e
    /\ (Z.abs m <= 2 ^ 53)%Z /\ (-1074 <= e)%Z
    /\ Qabs q < overflowThreshold.

(** [a * b] on Numbers. *)
Definition mul (a b : number) : number :=
  match a, b with
  | NaN, _ | _, NaN => NaN
  | Fin x, Fin y => roundToNumber (x * y)
  | Fin x, PInf | PInf, Fin x =>
      match Qcompare x 0 with Eq => NaN | Gt => PInf | Lt => NInf end
  | Fin x, NInf | NInf, Fin x =>
      match Qcompare x 0 with Eq => NaN | Gt => NInf | Lt => PInf end
  | PInf, PInf | NInf, NInf => PInf
  | PInf, NInf | NInf, PInf => NInf
  end.

(** [a - b] on Numbers. *)
Definition sub (a b : number) : number :=
  match a, b with
  | NaN, _ | _, NaN => NaN
  | Fin x, Fin y => roundToNumber (x - y)
  | PInf, PInf | NInf, NInf => NaN
  | PInf, _ => PInf
  | NInf, _ => NInf
  | Fin _, PInf => NInf
  | Fin _, NInf => PInf
  end.

(** [a / b] on Numbers.  Every divisor of the program is a non-zero
    literal; for a zero divisor, where the sign of the zero decides
    between the infinities, the quotient is the one for [+0]. *)
Definition div (a b : number) : number :=
  match a, b with
  | NaN, _ | _, NaN => NaN
  | Fin x, Fin y =>
      match Qcompare y 0 with
      | Eq => match Qcompare x 0 with Eq => NaN | Gt => PInf | Lt => NInf end
      | _ => roundToNumber (x / y)
      end
  | Fin _, _ => Fin 0
  | PInf, Fin y => match Qcompare y 0 with Lt => NInf | _ => PInf end
  | NInf, Fin y => match Qcompare y 0 with Lt => PInf | _ => NInf end
  | _, _ => NaN
  end.

(** [Math.floor]. *)
Definition floor (a : number) : number :=
  match a with
  | Fin x => Fin (inject_Z (Qfloor x))
  | _ => a
  end.

(** The Numbers that are not positive: minus infinity, and the finite
    ones at most zero. *)
Definition notPositive (a : number) : Prop :=
  a = NInf \/ exists v, a = Fin v /\ v <= 0.

(** *** [parseFloat]

    Skip leading white space, take the longest prefix that is a
    [StrDecimalLiteral], and round its mathematical value. *)

Definition isDigit (c : code_unit) : bool := ((48 <=? c) && (c <=? 57))%N.

Fixpoint span (p : code_unit -> bool) (s : jsstring) : jsstring * jsstring :=
  match s with
  | c :: rest =>
      if p c then let (a, b) := span p rest in (c :: a, b) else ([], s)
  | [] => ([], [])
  end.

Definition digitsValue (ds : jsstring) : Z :=
  fold_left (fun acc c => (10 * acc + (Z.of_N c - 48))%Z) ds 0%Z.

(** [ExponentPart], when one starts the string: [e] or [E], an optional
    sign, and at least one digit.  Without digits there is no exponent
    part and the prefix ends before the [e]. *)
Definition exponentPart (s : jsstring) : Z :=
  match s with
  | c :: rest =>
      if ((c =? 101) || (c =? 69))%N then
        let (sign, rest') :=
          match rest with
          | d :: r => if (d =? 43)%N then (1%Z, r)
                      else if (d =? 45)%N then ((-1)%Z, r)
                      else (1%Z, rest)
          | [] => (1%Z, rest)
          end in
        (sign * digitsValue (fst (span isDigit rest')))%Z
      else 0%Z
  | [] => 0%Z
  end.

(** Mathematical value of the longest [StrUnsignedDecimalLiteral] prefix
    other than [Infinity]; [None] when no prefix is one. *)
Definition unsignedDecimal (s : jsstring) : option Q :=
  let (ip, r1) := span isDigit s in
  let '(fp, hasDot, r2) :=
    match r1 with
    | c :: r => if (c =? 46)%N
                then let (f, r') := span isDigit r in (f, true, r')
                else ([], false, r1)
    | [] => ([], false, r1)
    end in
  match ip, fp with
  | [], [] => None
  | _, _ =>
      let e := (exponentPart r2 - Z.of_nat (List.length fp))%Z in
      Some (inject_Z (digitsValue (ip ++ fp)) * 10 ^ e)
  end.

Definition parseFloat (s : jsstring) : number :=
  let t := trimStart s in
  let (negative, body) :=
    match t with
    | c :: r => if (c =? 45)%N then (true, r)
                else if (c =? 43)%N then (false, r)
                else (false, t)
    | [] => (false, t)
    end in
  if startsWith body (js "Infinity") then
    (if negative then NInf else PInf)
  else
    match unsignedDecimal body with
    | None => NaN
    | Some q => roundToNumber (if negative then - q else q)
    end.

(** *** Number-to-string for integers

    [Date.now()] is an integral Number of magnitude below [10^21], for
    which a template literal prints the plain decimal digits. *)

Fixpoint uintToString (d : Decimal.uint) : jsstring :=
  match d with
  | Decimal.Nil => []
  | Decimal.D0 d => 48%N :: uintToString d
  | Decimal.D1 d => 49%N :: uintToString d
  | Decimal.D2 d => 50%N :: uintToString d
  | Decimal.D3 d => 51%N :: uintToString d
  | Decimal.D4 d => 52%N :: uintToString d
  | Decimal.D5 d => 53%N :: uintToString d
  | Decimal.D6 d => 54%N :: uintToString d
  | Decimal.D7 d => 55%N :: uintToString d
  | Decimal.D8 d => 56%N :: uintToString d
  | Decimal.D9 d => 57%N :: uintToString d
  end.

Definition integerToString (z : Z) : jsstring :=
  match Z.to_int z with
  | Decimal.Pos d => uintToString d
  | Decimal.Neg d => 45%N :: uintToString d
  end.

(** The Number a decimal literal of the source denotes. *)
Definition literal (s : string) : number := parseFloat (js s).

(** The string a template literal prints for a Number that is integral and
    below [10^21] in magnitude, as the results of [Math.floor] on the
    program's quotients are. *)
Definition integralToString (a : number) : jsstring :=
  match a with
  | NaN => js "NaN"
  | PInf => js "Infinity"
  | NInf => js "-Infinity"
  | Fin x => integerToString (Qfloor x)
  end.

End JS.

Import JS.

(* ================================================================== *)
(** ** src/types.ts *)
(* ================================================================== *)

Inductive Status : Type := pending | completed | failed.

Module Transaction.
Record t : Type := mk {
  id : jsstring;
  amount : number;
  recipient : jsstring;
  timestamp : Z;          (* an integral Number: milliseconds *)
  status : Status
}.
End Transaction.

Module SendMoneyRequest.
Record t : Type := mk {
  amount : number;
  recipient : jsstring
}.
End SendMoneyRequest.

(** Readings of [Date.now()], in call order, during one call of a
    function of the program. *)
Definition Clock := nat -> Z.

(* ================================================================== *)
(** ** src/mocks/handlers.ts *)
(* ================================================================== *)

(** [let chaosModeEnabled = false]: module state, passed explicitly. *)
Definition chaosModeInitial : bool := false.

Definition setChaosMode (enabled : bool) (chaosModeEnabled : bool) : bool :=
  enabled.

Definition getChaosMode (chaosModeEnabled : bool) : bool := chaosModeEnabled.

Definition lit_5000 : number := Eval vm_compute in literal "5000".
Definition lit_0_1 : number := Eval vm_compute in literal "0.1".

(** What [applyChaos] did: the delay awaited, if any, and its answer. *)
Record Chaos : Type := {
  latency : option number;
  shouldError : bool
}.

(** [rnd1], [rnd2]: the two draws of [Math.random()], each in [[0,1)];
    neither is drawn when chaos mode is off. *)
Definition applyChaos (chaosModeEnabled : bool) (rnd1 rnd2 : Q) : Chaos :=
  if negb chaosModeEnabled then {| latency := None; shouldError := false |}
  else
    let latency := mul (Fin rnd1) lit_5000 in
    let shouldError := ltb (Fin rnd2) lit_0_1 in
    {| latency := Some latency; shouldError := shouldError |}.

Inductive Json : Type :=
| JsonError (error : jsstring)                  (* { error: ... } *)
| JsonTransactions (l : list Transaction.t)
| JsonTransaction (t : Transaction.t).

Module HttpResponse.
Record t : Type := mk {
  status : N;
  body : Json
}.
(** [HttpResponse.json(body)] answers 200 unless a status is given. *)
Definition json (body : Json) (status : option N) : t :=
  mk (match status with Some n => n | None => 200%N end) body.
End HttpResponse.

(** A handled request: the delay before the answer, and the answer. *)
Record Handled : Type := {
  delay : option number;
  response : HttpResponse.t
}.

Definition internalServerError : HttpResponse.t :=
  HttpResponse.json (JsonError (js "Internal server error")) (Some 500%N).

Definition storedTransactions (now : Clock) : list Transaction.t :=
  [ Transaction.mk (js "1") (literal "150.00") (js "Alice Johnson")
      (now 0%nat - 3600000) completed;
    Transaction.mk (js "2") (literal "75.50") (js "Bob Smith")
      (now 1%nat - 7200000) completed;
    Transaction.mk (js "3") (literal "200.00") (js "Charlie Brown")
      (now 2%nat - 10800000) completed ].

(** [http.get('/api/transactions', ...)] *)
Definition getTransactionsHandler
    (chaosModeEnabled : bool) (rnd1 rnd2 : Q) (now : Clock) : Handled :=
  let chaos := applyChaos chaosModeEnabled rnd1 rnd2 in
  if shouldError chaos then
    {| delay := latency chaos; response := internalServerError |}
  else
    let transactions := storedTransactions now in
    {| delay := latency chaos;
       response := HttpResponse.json (JsonTransactions transactions) None |}.

(** The identifier the server assigns.  [rnd36] is
    [Math.random().toString(36)], the third draw printed in base 36. *)
Definition serverId (now : Clock) (rnd36 : jsstring) : jsstring :=
  js "tx-" ++ integerToString (now 0%nat) ++ js "-" ++ slice rnd36 2 11.

(** The record the server creates for a request body [{ amount, recipient }]. *)
Definition createdTransaction (now : Clock) (rnd36 : jsstring)
    (body : SendMoneyRequest.t) : Transaction.t :=
  Transaction.mk (serverId now rnd36)
    (SendMoneyRequest.amount body) (SendMoneyRequest.recipient body)
    (now 1%nat) completed.

(** [http.post('/api/transactions', ...)]; [body] is the request's JSON
    body. *)
Definition postTransactionHandler
    (chaosModeEnabled : bool) (rnd1 rnd2 : Q) (now : Clock)
    (rnd36 : jsstring) (body : SendMoneyRequest.t) : Handled :=
  let chaos := applyChaos chaosModeEnabled rnd1 rnd2 in
  if shouldError chaos then
    {| delay := latency chaos; response := internalServerError |}
  else
    let newTransaction := createdTransaction now rnd36 body in
    {| delay := latency chaos;
       response :=
         HttpResponse.json (JsonTransaction newTransaction) (Some 201%N) |}.

(* ================================================================== *)
(** ** src/api/transactions.ts *)
(* ================================================================== *)

(** A settled promise: the value, or the message of the [Error] thrown. *)
Inductive Settled (A : Type) : Type :=
| Resolved (value : A)
| Rejected (message : jsstring).
Arguments Resolved {A} value.
Arguments Rejected {A} message.

(** [response.ok]: the status is in the range 200-299. *)
Definition ok (r : HttpResponse.t) : bool :=
  (200 <=? HttpResponse.status r)%N && (HttpResponse.status r <=? 299)%N.

(** [fetchTransactions], given the answer of [fetch('/api/transactions')].
    A successful answer is resolved with its body, a [Transaction[]] by the
    type annotation; one with another body, which no handler gives
    ([handlers_typed]), is counted as a failure. *)
Definition fetchTransactions (r : HttpResponse.t)
  : Settled (list Transaction.t) :=
  if negb (ok r) then Rejected (js "Failed to fetch transactions")
  else
    match HttpResponse.body r with
    | JsonTransactions l => Resolved l
    | _ => Rejected (js "Failed to fetch transactions")
    end.

(** [sendMoney], given the answer to the POST.  [error.error || '...']
    falls back to the default when the body has no non-empty [error].  A
    successful answer is resolved with its body, a [Transaction]. *)
Definition sendMoney (r : HttpResponse.t) : Settled Transaction.t :=
  if negb (ok r) then
    match HttpResponse.body r with
    | JsonError error =>
        Rejected (if truthy error then error else js "Failed to send money")
    | _ => Rejected (js "Failed to send money")
    end
  else
    match HttpResponse.body r with
    | JsonTransaction t => Resolved t
    | _ => Rejected (js "Failed to send money")
    end.

(* ================================================================== *)
(** ** src/main.tsx: the query client *)
(* ================================================================== *)

(** The [retry] option: [false]/[true], or a number of retries. *)
Inductive Retry : Type :=
| RetryBool (b : bool)
| RetryCount (n : nat).

Record DefaultOptions : Type := {
  queries_retry : Retry;
  queries_refetchOnWindowFocus : bool;
  mutations_retry : Retry
}.

Definition queryClient : DefaultOptions := {|
  queries_retry := RetryBool false;
  queries_refetchOnWindowFocus := false;
  mutations_retry := RetryBool false
|}.

(** The decision of the query library after a failed attempt that
    [failureCount] failures preceded: [retry === true ||
    (typeof retry === 'number' && failureCount < retry)]. *)
Definition shouldRetry (retry : Retry) (failureCount : nat) : bool :=
  match retry with
  | RetryBool b => b
  | RetryCount n => (failureCount <? n)%nat
  end.

(** Running the mutation function against the answers of the server to
    the successive attempts: the attempts made, and the settlement
    ([None] while an answer is still awaited). *)
Fixpoint runMutationFn (retry : Retry) (failureCount : nat)
    (answers : list HttpResponse.t)
  : list HttpResponse.t * option (Settled Transaction.t) :=
  match answers with
  | [] => ([], None)
  | r :: later =>
      match sendMoney r with
      | Resolved data => ([r], Some (Resolved data))
      | Rejected message =>
          if shouldRetry retry failureCount then
            let (made, settled) := runMutationFn retry (S failureCount) later in
            (r :: made, settled)
          else ([r], Some (Rejected message))
      end
  end.

(* ================================================================== *)
(** ** src/hooks/useTransactions.ts: useSendMoney *)
(* ================================================================== *)

(** The query cache under the key [['transactions']]: [undefined] until a
    list has been stored. *)
Definition QueryData := option (list Transaction.t).

(** The list an updater [(old = []) => ...] receives: the cached one, or
    the default of its parameter. *)
Definition stored (cache : QueryData) : list Transaction.t :=
  match cache with Some old => old | None => [] end.

(** [queryClient.setQueryData(key, (old = []) => f(old))]. *)
Definition setQueryDataWith
    (updater : list Transaction.t -> list Transaction.t)
    (cache : QueryData) : QueryData :=
  Some (updater (stored cache)).

(** [queryClient.setQueryData(key, value)]. *)
Definition setQueryData (value : list Transaction.t) (cache : QueryData)
  : QueryData := Some value.

Record Context : Type := {
  previousTransactions : QueryData;
  newTransaction : SendMoneyRequest.t
}.

Definition isTemporary (t : Transaction.t) : bool :=
  startsWith (Transaction.id t) (js "temp-").

Definition optimisticTransaction (now : Clock)
    (newTransaction : SendMoneyRequest.t) : Transaction.t :=
  Transaction.mk
    (js "temp-" ++ integerToString (now 0%nat))
    (SendMoneyRequest.amount newTransaction)
    (SendMoneyRequest.recipient newTransaction)
    (now 1%nat)
    pending.

(** [onMutate]: snapshot, then prepend the optimistic entry.
    ([cancelQueries] stops pending refetches; it stores nothing.) *)
Definition onMutate (now : Clock) (newTransaction : SendMoneyRequest.t)
    (cache : QueryData) : QueryData * Context :=
  let previousTransactions := cache in
  let optimistic := optimisticTransaction now newTransaction in
  (setQueryDataWith (fun old => optimistic :: old) cache,
   {| previousTransactions := previousTransactions;
      newTransaction := newTransaction |}).

(** What a callback asks of the mutation object or of the query client. *)
Inductive Effect : Type :=
| Mutate (variables : SendMoneyRequest.t)   (* mutation.mutate(variables) *)
| InvalidateQueries.                         (* a refetch of the list *)

Record Toast : Type := {
  title : jsstring;
  description : jsstring;
  action_label : jsstring;
  action_onClick : unit -> list Effect;
  duration : N
}.

(** [onError]: roll back when a snapshot was taken, then offer a retry.
    The result is the cache, the toast shown and [retryRef.current]. *)
Definition onError (message : jsstring) (context : option Context)
    (cache : QueryData) : QueryData * Toast * (unit -> list Effect) :=
  let cache' :=
    match context with
    | Some {| previousTransactions := Some previous |} =>
        setQueryData previous cache
    | _ => cache
    end in
  let retry := fun _ : unit =>
    match context with
    | Some c => [Mutate (newTransaction c)]
    | None => []
    end in
  (cache',
   {| title := js "Transaction Failed";
      description := if truthy message then message
                     else js "Failed to send money. Please try again.";
      action_label := js "Retry";
      action_onClick := retry;
      duration := 5000%N |},
   retry).

(** [onSuccess]: drop every temporary entry, put the server's record in
    front.  (The success toast stores nothing.) *)
Definition onSuccess (data : Transaction.t) (cache : QueryData) : QueryData :=
  setQueryDataWith
    (fun old =>
       let filtered := filter (fun t => negb (isTemporary t)) old in
       data :: filtered)
    cache.

Definition onSettled : list Effect := [InvalidateQueries].

(** One call of [mutation.mutate(variables)], run to its settlement
    against the answers of the server: [onMutate], the mutation function
    under the client's retry option, then [onSuccess] or [onError]. *)
Record Outcome : Type := {
  cache_after : QueryData;
  attempts : list HttpResponse.t;
  error_toast : option Toast;
  settled : option (Settled Transaction.t);
  effects : list Effect
}.

Definition mutate (options : DefaultOptions) (now : Clock)
    (variables : SendMoneyRequest.t) (answers : list HttpResponse.t)
    (cache : QueryData) : Outcome :=
  let (cache1, context) := onMutate now variables cache in
  let (made, result) := runMutationFn (mutations_retry options) 0 answers in
  match result with
  | None =>
      {| cache_after := cache1; attempts := made; error_toast := None;
         settled := None; effects := [] |}
  | Some (Resolved data) =>
      {| cache_after := onSuccess data cache1; attempts := made;
         error_toast := None; settled := result; effects := onSettled |}
  | Some (Rejected message) =>
      let '(cache2, shown, _) := onError message (Some context) cache1 in
      {| cache_after := cache2; attempts := made;
         error_toast := Some shown;
         settled := result; effects := onSettled |}
  end.




(** *** The cache over the life of the page

    Sends are submitted, settle in any order, and the list is refetched.
    [inflight] holds the context of every send not yet settled. *)
Record State : Type := {
  cache : QueryData;
  inflight : list Context
}.

Definition initialState : State := {| cache := None; inflight := [] |}.

Definition temporaryCount (c : QueryData) : nat :=
  match c with
  | Some l => List.length (filter isTemporary l)
  | None => 0%nat
  end.

Inductive step : State -> State -> Prop :=
| step_submit : forall s now variables,
    step s {| cache := fst (onMutate now variables (cache s));
              inflight := snd (onMutate now variables (cache s))
                          :: inflight s |}
| step_success : forall c before after context now rnd36,
    step {| cache := c; inflight := before ++ context :: after |}
         {| cache :=
              onSuccess
                (createdTransaction now rnd36 (newTransaction context)) c;
            inflight := before ++ after |}
| step_error : forall c before after context message,
    step {| cache := c; inflight := before ++ context :: after |}
         {| cache := fst (fst (onError message (Some context) c));
            inflight := before ++ after |}
| step_refetched : forall s now,
    step s {| cache := Some (storedTransactions now);
              inflight := inflight s |}.


Inductive reachable (init : State) : State -> Prop :=
| reach_init : reachable init init
| reach_step : forall s s',
    reachable init s -> step s s' -> reachable init s'.



(* ================================================================== *)
(** ** src/components/SendMoneyForm.tsx *)
(* ================================================================== *)

Definition lit_0 : number := Eval vm_compute in literal "0".
Definition lit_10000 : number := Eval vm_compute in literal "10000".
Definition lit_0_01 : number := Eval vm_compute in literal "0.01".

Module Errors.
Record t : Type := mk {
  amount : option jsstring;
  recipient : option jsstring
}.
End Errors.

Definition validateRecipient (recipient : jsstring) : option jsstring :=
  if negb (truthy (trim recipient)) then
    Some (js "Recipient name is required")
  else if (JS.length (trim recipient) <? 2)%nat then
    Some (js "Recipient name must be at least 2 characters")
  else None.

Definition validateAmount (amount : jsstring) : option jsstring :=
  let numAmount := parseFloat amount in
  if negb (truthy amount) then
    Some (js "Amount is required")
  else if isNaN numAmount || leb numAmount lit_0 then
    Some (js "Amount must be greater than 0")
  else if gtb numAmount lit_10000 then
    Some (js "Amount cannot exceed $10,000")
  else if ltb numAmount lit_0_01 then
    Some (js "Amount must be at least $0.01")
  else None.

(** [validateForm]: the errors stored by [setErrors], and whether there
    is none. *)
Definition validateForm (amount recipient : jsstring) : Errors.t * bool :=
  let newErrors :=
    Errors.mk (validateAmount amount) (validateRecipient recipient) in
  (newErrors,
   match Errors.amount newErrors, Errors.recipient newErrors with
   | None, None => true
   | _, _ => false
   end).

Definition handleSubmit (amount recipient : jsstring) : list Effect :=
  if negb (snd (validateForm amount recipient)) then []
  else
    let numAmount := parseFloat amount in
    [Mutate (SendMoneyRequest.mk numAmount (trim recipient))].

(** [/^\d*\.?\d*$/.test(value)], the filter of [handleAmountChange] *)
Definition amountShape (value : jsstring) : bool :=
  let (_, r1) := span isDigit value in
  let r2 := match r1 with
            | c :: r => if (c =? 46)%N then r else r1
            | [] => r1
            end in
  match snd (span isDigit r2) with [] => true | _ => false end.

Definition handleAmountChange (value : jsstring) (amount : jsstring)
  : jsstring :=
  if negb (truthy value) || amountShape value then value else amount.

(** The [errors] state.  [validateForm] stores an object that has a key
    for each message only; the effect below overwrites a key with
    [undefined], which leaves the key in the object. *)
Inductive Slot : Type :=
| Absent                      (* no such key *)
| Cleared                     (* the key is there, its value [undefined] *)
| Message (text : jsstring).

Module ErrorsState.
Record t : Type := mk {
  amount : Slot;
  recipient : Slot
}.
End ErrorsState.

Definition slotOf (e : option jsstring) : Slot :=
  match e with Some text => Message text | None => Absent end.

(** [setErrors(newErrors)] with the object [validateForm] built. *)
Definition setErrors (newErrors : Errors.t) : ErrorsState.t :=
  ErrorsState.mk (slotOf (Errors.amount newErrors))
    (slotOf (Errors.recipient newErrors)).

(** [useState({})], and [setErrors({})] after a successful send. *)
Definition noErrors : ErrorsState.t := ErrorsState.mk Absent Absent.

(** Truthiness of [errors.amount], [errors.recipient]. *)
Definition slotTruthy (s : Slot) : bool :=
  match s with Message text => truthy text | _ => false end.

(** [Object.keys(errors).length]. *)
Definition keysLength (errors : ErrorsState.t) : nat :=
  ((match ErrorsState.amount errors with Absent => 0 | _ => 1 end)
   + (match ErrorsState.recipient errors with Absent => 0 | _ => 1 end))%nat.

(** The effect run after a render in which [amount], [recipient] or
    [errors] changed: both tests read the [errors] of that render, both
    updates spread the previous state. *)
Definition clearErrorsEffect (amount recipient : jsstring)
    (errors : ErrorsState.t) : ErrorsState.t :=
  ErrorsState.mk
    (if truthy amount && slotTruthy (ErrorsState.amount errors)
     then Cleared else ErrorsState.amount errors)
    (if truthy recipient && slotTruthy (ErrorsState.recipient errors)
     then Cleared else ErrorsState.recipient errors).

Definition isDisabled (isPending : bool) (amount recipient : jsstring)
    (errors : ErrorsState.t) : bool :=
  isPending || negb (truthy amount) || negb (truthy recipient)
  || (0 <? keysLength errors)%nat.

(* ================================================================== *)
(** ** src/components/TransactionList.tsx *)
(* ================================================================== *)

Definition lit_1000 : number := Eval vm_compute in literal "1000".
Definition lit_60 : number := Eval vm_compute in literal "60".
Definition lit_24 : number := Eval vm_compute in literal "24".
Definition lit_7 : number := Eval vm_compute in literal "7".

(** [formatTimestamp].  [now] is the reading of [Date.now()];
    [toLocaleDateString] stands for
    [new Date(timestamp).toLocaleDateString()], which the locale of the
    browser decides. *)
Definition formatTimestamp (toLocaleDateString : number -> jsstring)
    (now : Z) (timestamp : number) : jsstring :=
  let diff := sub (Fin (inject_Z now)) timestamp in
  let seconds := floor (div diff lit_1000) in
  let minutes := floor (div seconds lit_60) in
  let hours := floor (div minutes lit_60) in
  let days := floor (div hours lit_24) in
  if ltb seconds lit_60 then js "Just now"
  else if ltb minutes lit_60 then integralToString minutes ++ js "m ago"
  else if ltb hours lit_24 then integralToString hours ++ js "h ago"
  else if ltb days lit_7 then integralToString days ++ js "d ago"
  else toLocaleDateString timestamp.

(** The status badge of a row: [{transaction.status === 'pending' && ...}]
    and [{transaction.status === 'failed' && ...}]; its text. *)
Definition statusBadge (t : Transaction.t) : option jsstring :=
  match Transaction.status t with
  | pending => Some (js "Pending...")
  | failed => Some (js "Failed")
  | completed => None
  end.

(** The two kinds of entries the program stores: optimistic ones, and
    records of the server. *)
Definition optimisticOrServerRecord (t : Transaction.t) : Prop :=
  (isTemporary t = true /\ Transaction.status t = pending)
  \/ (isTemporary t = false /\ Transaction.status t = completed).

(* ================================================================== *)
(** ** src/hooks/useTransactions.ts: useTransactions and its use in App *)
(* ================================================================== *)


(** [const { data: transactions = [] } = useTransactions()] in [App]. *)
Definition displayedTransactions (cache : QueryData)
  : list Transaction.t := stored cache.

(* ================================================================== *)
(** ** Properties *)
(* ================================================================== *)

(** *** Strings *)

Lemma startsWith_app (p s : jsstring) : startsWith (p ++ s) p = true.
Proof.
  induction p as [|c p IH]; simpl; [reflexivity|].
  now rewrite N.eqb_refl, IH.
Qed.

Lemma trimStart_nil_iff (s : jsstring) :
  trimStart s = [] <-> forallb isWhiteSpace s = true.
Proof.
  induction s as [|c s IH]; simpl; [tauto|].
  destruct (isWhiteSpace c); simpl; [exact IH|].
  split; discriminate.
Qed.

Lemma trimStart_suffix (s : jsstring) :
  exists ws, s = ws ++ trimStart s /\ forallb isWhiteSpace ws = true.
Proof.
  induction s as [|c s [ws [E W]]]; simpl.
  - exists []; auto.
  - destruct (isWhiteSpace c) eqn:Hc.
    + exists (c :: ws); simpl. rewrite Hc, W. split; [congruence|reflexivity].
    + exists []; auto.
Qed.

Lemma trim_nil_iff (s : jsstring) :
  trim s = [] <-> forallb isWhiteSpace s = true.
Proof.
  unfold trim, trimEnd. split.
  - intros H. apply (f_equal (@rev _)) in H. rewrite rev_involutive in H.
    simpl in H. apply trimStart_nil_iff in H.
    rewrite forallb_forall in H.
    destruct (trimStart_suffix s) as [ws [E W]]. rewrite E.
    rewrite forallb_app, W. simpl. apply forallb_forall.
    intros x Hx. apply H, in_rev. now rewrite rev_involutive.
  - intros H. apply trimStart_nil_iff in H. now rewrite H.
Qed.

(** The first and the last code unit of a trimmed string are not white
    space. *)
Lemma trimStart_head (s : jsstring) c rest :
  trimStart s = c :: rest -> isWhiteSpace c = false.
Proof.
  induction s as [|d s IH]; simpl; [discriminate|].
  destruct (isWhiteSpace d) eqn:Hd; [exact IH|].
  intros E; injection E as -> _. exact Hd.
Qed.

Lemma trim_length_cases (s : jsstring) :
  match trim s with
  | [] => JS.length (trim s) = 0%nat
  | [_] => JS.length (trim s) = 1%nat
  | _ :: _ :: _ => (2 <= JS.length (trim s))%nat
  end.
Proof.
  destruct (trim s) as [|a [|b r]]; simpl; lia.
Qed.

(** *** Recipient validation *)

(** C7. The recipient is rejected when its trimmed value is empty, which
    is the case exactly when the input is empty or made of white space
    only, and when its trimmed value has a single code unit; it is accepted
    exactly when the trimmed value has at least two. *)
Theorem recipient_validation (recipient : jsstring) :
  validateRecipient recipient =
    match trim recipient with
    | [] => Some (js "Recipient name is required")
    | [_] => Some (js "Recipient name must be at least 2 characters")
    | _ :: _ :: _ => None
    end
  /\ (trim recipient = [] <-> forallb isWhiteSpace recipient = true)
  /\ (validateRecipient recipient = None
      <-> (2 <= JS.length (trim recipient))%nat)
  /\ (forall amount,
        Errors.recipient (fst (validateForm amount recipient)) = None
        <-> (2 <= JS.length (trim recipient))%nat).
Proof.
  assert (E : validateRecipient recipient =
    match trim recipient with
    | [] => Some (js "Recipient name is required")
    | [_] => Some (js "Recipient name must be at least 2 characters")
    | _ :: _ :: _ => None
    end).
  { unfold validateRecipient. destruct (trim recipient) as [|a [|b r]];
      reflexivity. }
  assert (A : validateRecipient recipient = None
              <-> (2 <= JS.length (trim recipient))%nat).
  { rewrite E. destruct (trim recipient) as [|a [|b r]]; simpl;
      split; intros H; try discriminate; try lia; reflexivity. }
  repeat split; try apply trim_nil_iff; try apply A; auto.
Qed.

(** *** Identifiers *)

Lemma temporary_id_starts_temp (now : Clock) (variables : SendMoneyRequest.t) :
  isTemporary (optimisticTransaction now variables) = true.
Proof. apply startsWith_app. Qed.

Lemma serverId_tx (now : Clock) (rnd36 : jsstring) :
  startsWith (serverId now rnd36) (js "tx-") = true.
Proof. apply startsWith_app. Qed.

Lemma serverId_not_temp (now : Clock) (rnd36 : jsstring) :
  startsWith (serverId now rnd36) (js "temp-") = false.
Proof. reflexivity. Qed.

Lemma created_not_temporary now rnd36 body :
  isTemporary (createdTransaction now rnd36 body) = false.
Proof. reflexivity. Qed.

Lemma onSuccess_stored data c :
  onSuccess data c =
  Some (data :: filter (fun t => negb (isTemporary t)) (stored c)).
Proof. destruct c; reflexivity. Qed.

Lemma onSuccess_keeps data c t :
  isTemporary t = false -> In t (stored c) -> In t (stored (onSuccess data c)).
Proof.
  intros Ht Hin. rewrite onSuccess_stored. simpl. right.
  apply filter_In. split; [exact Hin|]. now rewrite Ht.
Qed.

(** The POST handler answers with a created record or with the error. *)
Lemma post_answers chaosModeEnabled rnd1 rnd2 now rnd36 body :
  response (postTransactionHandler chaosModeEnabled rnd1 rnd2 now rnd36 body)
  = (if shouldError (applyChaos chaosModeEnabled rnd1 rnd2)
     then internalServerError
     else HttpResponse.json
            (JsonTransaction (createdTransaction now rnd36 body))
            (Some 201%N)).
Proof.
  unfold postTransactionHandler.
  destruct (shouldError (applyChaos chaosModeEnabled rnd1 rnd2)); reflexivity.
Qed.

(** C9. A record the POST handler answers with has an identifier that
    starts with [tx-] and not with [temp-]; hence the filter of
    [onSuccess] keeps it, whatever later record is put in front. *)
Theorem server_record_survives_filter
    (chaosModeEnabled : bool) (rnd1 rnd2 : Q) (now : Clock)
    (rnd36 : jsstring) (body : SendMoneyRequest.t) (t : Transaction.t)
    (Hcreated :
       HttpResponse.body
         (response
            (postTransactionHandler chaosModeEnabled rnd1 rnd2 now rnd36 body))
       = JsonTransaction t) :
  startsWith (Transaction.id t) (js "tx-") = true
  /\ startsWith (Transaction.id t) (js "temp-") = false
  /\ forall (data : Transaction.t) (c : QueryData),
       In t (stored c) -> In t (stored (onSuccess data c)).
Proof.
  rewrite post_answers in Hcreated.
  destruct (shouldError (applyChaos chaosModeEnabled rnd1 rnd2));
    simpl in Hcreated; [discriminate|].
  injection Hcreated as <-.
  split; [apply serverId_tx|]. split; [apply serverId_not_temp|].
  intros data c. apply onSuccess_keeps, created_not_temporary.
Qed.

Lemma server_record_survives_filter_witness :
  let now : Clock := fun _ => 1700000000000%Z in
  let body := SendMoneyRequest.mk (literal "25") (js "Al") in
  let t := createdTransaction now (js "0.4fzyo82mvyr") body in
  startsWith (Transaction.id t) (js "tx-") = true
  /\ startsWith (Transaction.id t) (js "temp-") = false
  /\ forall (data : Transaction.t) (c : QueryData),
       In t (stored c) -> In t (stored (onSuccess data c)).
Proof.
  intros now body t.
  apply (server_record_survives_filter false 0 0 now (js "0.4fzyo82mvyr") body).
  reflexivity.
Defined.

(** *** The optimistic insert *)


(** A valid form submits the parsed amount and the trimmed recipient. *)
Lemma handleSubmit_valid (amount recipient : jsstring) :
  snd (validateForm amount recipient) = true ->
  handleSubmit amount recipient =
  [Mutate (SendMoneyRequest.mk (parseFloat amount) (trim recipient))].
Proof. unfold handleSubmit. now intros ->. Qed.

(** The handlers answer 2xx with a body of the type the client expects. *)
Lemma handlers_typed chaosModeEnabled rnd1 rnd2 now rnd36 body :
  (ok (response (getTransactionsHandler chaosModeEnabled rnd1 rnd2 now))
   = true ->
   HttpResponse.body
     (response (getTransactionsHandler chaosModeEnabled rnd1 rnd2 now))
   = JsonTransactions (storedTransactions now))
  /\ (ok (response
            (postTransactionHandler chaosModeEnabled rnd1 rnd2 now rnd36 body))
      = true ->
      HttpResponse.body
        (response
           (postTransactionHandler chaosModeEnabled rnd1 rnd2 now rnd36 body))
      = JsonTransaction (createdTransaction now rnd36 body)).
Proof.
  unfold getTransactionsHandler, postTransactionHandler.
  destruct (shouldError (applyChaos chaosModeEnabled rnd1 rnd2));
    split; intros H; try discriminate H; reflexivity.
Qed.

(** *** Chaos mode off *)

Lemma applyChaos_error_iff chaosModeEnabled rnd1 rnd2 :
  shouldError (applyChaos chaosModeEnabled rnd1 rnd2) = true
  <-> chaosModeEnabled = true /\ ltb (Fin rnd2) lit_0_1 = true.
Proof.
  unfold applyChaos. destruct chaosModeEnabled; simpl.
  - tauto.
  - split; [discriminate|]. intros [H _]; discriminate.
Qed.

Lemma get_status chaosModeEnabled rnd1 rnd2 now :
  HttpResponse.status
    (response (getTransactionsHandler chaosModeEnabled rnd1 rnd2 now))
  = if shouldError (applyChaos chaosModeEnabled rnd1 rnd2)
    then 500%N else 200%N.
Proof.
  unfold getTransactionsHandler.
  destruct (shouldError (applyChaos chaosModeEnabled rnd1 rnd2)); reflexivity.
Qed.

Lemma post_status chaosModeEnabled rnd1 rnd2 now rnd36 body :
  HttpResponse.status
    (response
       (postTransactionHandler chaosModeEnabled rnd1 rnd2 now rnd36 body))
  = if shouldError (applyChaos chaosModeEnabled rnd1 rnd2)
    then 500%N else 201%N.
Proof.
  rewrite post_answers.
  destruct (shouldError (applyChaos chaosModeEnabled rnd1 rnd2)); reflexivity.
Qed.

(** C10. With chaos mode off [applyChaos] waits for nothing and answers
    [shouldError = false]; GET answers 200 with the list and POST 201 with
    the created record, which the client functions resolve with.  Either
    handler answers 500 exactly when chaos mode is on and the error draw is
    below 0.1. *)
Theorem chaos_disabled_succeeds
    (rnd1 rnd2 : Q) (now : Clock) (rnd36 : jsstring)
    (body : SendMoneyRequest.t) :
  applyChaos false rnd1 rnd2 = {| latency := None; shouldError := false |}
  /\ getTransactionsHandler false rnd1 rnd2 now
     = {| delay := None;
          response :=
            HttpResponse.mk 200%N (JsonTransactions (storedTransactions now)) |}
  /\ postTransactionHandler false rnd1 rnd2 now rnd36 body
     = {| delay := None;
          response :=
            HttpResponse.mk 201%N
              (JsonTransaction (createdTransaction now rnd36 body)) |}
  /\ fetchTransactions (response (getTransactionsHandler false rnd1 rnd2 now))
     = Resolved (storedTransactions now)
  /\ sendMoney
       (response (postTransactionHandler false rnd1 rnd2 now rnd36 body))
     = Resolved (createdTransaction now rnd36 body)
  /\ (forall chaosModeEnabled,
        HttpResponse.status
          (response (getTransactionsHandler chaosModeEnabled rnd1 rnd2 now))
        = 500%N
        <-> chaosModeEnabled = true /\ ltb (Fin rnd2) lit_0_1 = true)
  /\ (forall chaosModeEnabled,
        HttpResponse.status
          (response
             (postTransactionHandler chaosModeEnabled rnd1 rnd2 now rnd36 body))
        = 500%N
        <-> chaosModeEnabled = true /\ ltb (Fin rnd2) lit_0_1 = true).
Proof.
  do 5 (split; [reflexivity|]).
  split; intros chaosModeEnabled;
    rewrite ?get_status, ?post_status,
      <- (applyChaos_error_iff chaosModeEnabled rnd1 rnd2);
    destruct (shouldError (applyChaos chaosModeEnabled rnd1 rnd2));
    split; congruence.
Qed.

(** *** The mutation, run to its settlement *)

(** Under the options of [queryClient] the mutation function runs once:
    whatever the first answer is, it settles the mutation. *)
Lemma runMutationFn_once (n : nat) (r : HttpResponse.t)
    (later : list HttpResponse.t) :
  runMutationFn (mutations_retry queryClient) n (r :: later)
  = ([r], Some (sendMoney r)).
Proof. simpl. destruct (sendMoney r); reflexivity. Qed.


Lemma mutate_rejected now variables r later c message :
  sendMoney r = Rejected message ->
  mutate queryClient now variables (r :: later) c
  = {| cache_after :=
         fst (fst (onError message
                     (Some (snd (onMutate now variables c)))
                     (fst (onMutate now variables c))));
       attempts := [r];
       error_toast :=
         Some (snd (fst (onError message
                           (Some (snd (onMutate now variables c)))
                           (fst (onMutate now variables c)))));
       settled := Some (Rejected message);
       effects := [InvalidateQueries] |}.
Proof.
  intros H. unfold mutate.
  destruct (onMutate now variables c) as [c1 ctx].
  rewrite runMutationFn_once, H. reflexivity.
Qed.

Lemma mutate_resolved now variables r later c data :
  sendMoney r = Resolved data ->
  mutate queryClient now variables (r :: later) c
  = {| cache_after := onSuccess data (fst (onMutate now variables c));
       attempts := [r];
       error_toast := None;
       settled := Some (Resolved data);
       effects := [InvalidateQueries] |}.
Proof.
  intros H. unfold mutate.
  destruct (onMutate now variables c) as [c1 ctx].
  rewrite runMutationFn_once, H. reflexivity.
Qed.

Lemma mutate_settles now variables r later c :
  settled (mutate queryClient now variables (r :: later) c)
  = Some (sendMoney r).
Proof.
  destruct (sendMoney r) as [data|message] eqn:E.
  - now rewrite (mutate_resolved _ _ _ _ _ _ E).
  - now rewrite (mutate_rejected _ _ _ _ _ _ E).
Qed.

(** *** Rollback *)

Lemma onError_with_snapshot message variables previous c :
  fst (fst (onError message
              (Some {| previousTransactions := Some previous;
                       newTransaction := variables |}) c))
  = Some previous.
Proof. reflexivity. Qed.

Lemma onError_without_snapshot message variables c :
  fst (fst (onError message
              (Some {| previousTransactions := None;
                       newTransaction := variables |}) c))
  = c.
Proof. reflexivity. Qed.




(** *** Reconciliation on success *)

Lemma onMutate_cache now variables c :
  fst (onMutate now variables c)
  = Some (optimisticTransaction now variables :: stored c).
Proof. reflexivity. Qed.






(** *** Retry *)

(** C4. A failed send is not attempted again by the client: the mutation
    function ran once, against the first answer, and the settled mutation
    asks for nothing but the refetch.  The toast it shows carries a
    [Retry] action which, clicked, calls [mutate] with the payload of the
    failed send; [retryRef.current] is that same action. *)
Theorem manual_retry_only
    (now : Clock) (variables : SendMoneyRequest.t)
    (r : HttpResponse.t) (later : list HttpResponse.t) (c : QueryData)
    (message : jsstring)
    (Hfails : sendMoney r = Rejected message) :
  let outcome := mutate queryClient now variables (r :: later) c in
  attempts outcome = [r]
  /\ settled outcome = Some (Rejected message)
  /\ effects outcome = [InvalidateQueries]
  /\ (forall n, shouldRetry (mutations_retry queryClient) n = false)
  /\ exists shown : Toast,
       error_toast outcome = Some shown
       /\ action_label shown = js "Retry"
       /\ action_onClick shown tt = [Mutate variables]
       /\ snd (onError message (Some (snd (onMutate now variables c)))
                 (fst (onMutate now variables c))) tt
          = [Mutate variables].
Proof.
  intros outcome. unfold outcome.
  rewrite (mutate_rejected _ _ _ _ _ _ Hfails). simpl.
  do 4 (split; [reflexivity|]).
  eexists. split; [reflexivity|]. repeat split.
Qed.

Lemma manual_retry_only_witness :
  let now : Clock := fun _ => 1700000000000%Z in
  let variables := SendMoneyRequest.mk (literal "25") (js "Al") in
  attempts
    (mutate queryClient now variables
       [internalServerError; internalServerError] None)
  = [internalServerError].
Proof.
  intros now variables.
  apply (manual_retry_only now variables internalServerError
           [internalServerError] None (js "Internal server error")).
  reflexivity.
Defined.

(** *** Temporary entries over the life of the page *)








(** With a list cached, two sends in flight break it too: the later
    one's failure restores a snapshot that holds the earlier one's
    temporary entry, after the earlier one has settled. *)
Lemma temporary_entry_restored_by_later_failure :
  let now : Clock := fun _ => 1700000000000%Z in
  let first := SendMoneyRequest.mk (literal "25") (js "Al") in
  let second := SendMoneyRequest.mk (literal "30") (js "Bo") in
  exists s : State,
    reachable {| cache := Some (storedTransactions now); inflight := [] |} s
    /\ inflight s = []
    /\ temporaryCount (cache s) = 1%nat.
Proof.
  intros now first second.
  set (s0 := {| cache := Some (storedTransactions now); inflight := [] |}).
  set (c1 := fst (onMutate now first (cache s0))).
  set (k1 := snd (onMutate now first (cache s0))).
  set (c2 := fst (onMutate now second c1)).
  set (k2 := snd (onMutate now second c1)).
  set (c3 := onSuccess (createdTransaction now (js "0.4fzyo82mvyr")
                          (newTransaction k1)) c2).
  exists {| cache := fst (fst (onError (js "Internal server error")
                                 (Some k2) c3));
            inflight := [] |}.
  split; [|split; reflexivity].
  eapply reach_step.
  - eapply reach_step.
    + eapply reach_step.
      * eapply reach_step; [apply reach_init|].
        apply (step_submit s0 now first).
      * apply (step_submit {| cache := c1; inflight := [k1] |} now second).
    + apply (step_success c2 [k2] [] k1 now (js "0.4fzyo82mvyr")).
  - apply (step_error c3 [] [] k2 (js "Internal server error")).
Qed.

(** *** Numbers *)

Section Numbers.

Local Open Scope Q_scope.

Lemma Qlt_bool_iff x y : Qlt_bool x y = true <-> x < y.
Proof.
  unfold Qlt_bool. rewrite negb_true_iff.
  split; intros H.
  - apply Qnot_le_lt. intros C. apply Qle_bool_iff in C. congruence.
  - destruct (Qle_bool y x) eqn:E; [|reflexivity].
    apply Qle_bool_iff in E. lra.
Qed.

Lemma Qlt_bool_false_iff x y : Qlt_bool x y = false <-> y <= x.
Proof.
  unfold Qlt_bool. rewrite negb_false_iff. apply Qle_bool_iff.
Qed.

Lemma round_half_even_bounds x :
  x - (1#2) <= inject_Z (round_half_even x) <= x + (1#2).
Proof.
  unfold round_half_even.
  pose proof (Qfloor_le x) as Hlo. pose proof (Qlt_floor x) as Hhi.
  rewrite inject_Z_plus in Hhi. change (inject_Z 1) with 1 in Hhi.
  destruct (Qcompare_spec (x - inject_Z (Qfloor x)) (1#2)) as [E|E|E].
  - destruct (Z.even (Qfloor x)); rewrite ?inject_Z_plus;
      change (inject_Z 1) with 1; lra.
  - lra.
  - rewrite inject_Z_plus. change (inject_Z 1) with 1. lra.
Qed.

Lemma round_half_even_le x (n : Z) : x <= inject_Z n -> (round_half_even x <= n)%Z.
Proof.
  intros H. pose proof (round_half_even_bounds x) as [_ B].
  assert (inject_Z (round_half_even x) < inject_Z (n + 1)).
  { rewrite inject_Z_plus. change (inject_Z 1) with 1. lra. }
  rewrite <- Zlt_Qlt in H0. lia.
Qed.

Lemma round_half_even_ge x (n : Z) : inject_Z n <= x -> (n <= round_half_even x)%Z.
Proof.
  intros H. pose proof (round_half_even_bounds x) as [B _].
  assert (inject_Z (n - 1) < inject_Z (round_half_even x)).
  { unfold Z.sub. rewrite inject_Z_plus. change (inject_Z (- (1))) with (-1). lra. }
  rewrite <- Zlt_Qlt in H0. lia.
Qed.

Lemma pow2_pos (e : Z) : 0 < 2 ^ e.
Proof. apply Qpower_0_lt. lra. Qed.

Lemma pow2_plus (a b : Z) : 2 ^ (a + b) == 2 ^ a * 2 ^ b.
Proof. apply Qpower_plus. lra. Qed.

Lemma pow2_inject (n : Z) : (0 <= n)%Z -> inject_Z (2 ^ n) == 2 ^ n.
Proof. intros H. rewrite Zpower_Qpower by assumption. reflexivity. Qed.

Lemma log2_bounds (n : positive) :
  2 ^ Z.log2 (Zpos n) <= inject_Z (Zpos n) < 2 ^ (Z.log2 (Zpos n) + 1).
Proof.
  pose proof (Z.log2_spec (Zpos n) ltac:(lia)) as [L U].
  pose proof (Z.log2_nonneg (Zpos n)) as P.
  rewrite <- !pow2_inject by lia.
  rewrite <- Zle_Qle, <- Zlt_Qlt. change (Z.succ ?x) with (x + 1)%Z in U.
  split; [exact L|]. replace (Z.log2 (Z.pos n) + 1)%Z with (Z.succ (Z.log2 (Z.pos n))) by lia. exact U.
Qed.

Lemma Qmake_cross (n : Z) (d : positive) :
  (n # d) * inject_Z (Zpos d) == inject_Z n.
Proof.
  unfold Qeq, Qmult, inject_Z. simpl. lia.
Qed.

Lemma floor_log2_spec (q : Q) :
  0 < q -> 2 ^ floor_log2 q <= q < 2 ^ (floor_log2 q + 1).
Proof.
  intros Hq. destruct q as [n d].
  assert (Hn : (0 < n)%Z).
  { unfold Qlt in Hq. simpl in Hq. lia. }
  destruct n as [|n|n]; try lia.
  unfold floor_log2. cbn [Qnum Qden].
  set (a := Z.log2 (Z.pos n)). set (b := Z.log2 (Z.pos d)).
  pose proof (log2_bounds n) as [Ln Un]. pose proof (log2_bounds d) as [Ld Ud].
  fold a in Ln, Un. fold b in Ld, Ud.
  pose proof (Qmake_cross (Z.pos n) d) as C.
  set (q := Z.pos n # d) in *.
  pose proof (pow2_pos b) as Pb. pose proof (pow2_pos (a - b)) as Pab.
  pose proof (pow2_pos (a - b - 1)) as Pab1.
  assert (E1 : 2 ^ (a + 1) == 2 ^ (a - b + 1) * 2 ^ b).
  { rewrite <- pow2_plus. replace (a - b + 1 + b)%Z with (a + 1)%Z by lia. reflexivity. }
  assert (E2 : 2 ^ a == 2 ^ (a - b - 1) * 2 ^ (b + 1)).
  { rewrite <- pow2_plus. replace (a - b - 1 + (b + 1))%Z with a by lia. reflexivity. }
  assert (Hup : q < 2 ^ (a - b + 1)).
  { apply Qnot_le_lt. intros Hc.
    assert (2 ^ (a - b + 1) * 2 ^ b <= q * inject_Z (Z.pos d)).
    { apply Qle_trans with (q * 2 ^ b).
      - apply Qmult_le_compat_r; lra.
      - apply Qmult_le_l; lra. }
    lra. }
  assert (Hlo : 2 ^ (a - b - 1) < q).
  { apply Qnot_le_lt. intros Hc.
    assert (q * inject_Z (Z.pos d) <= 2 ^ (a - b - 1) * inject_Z (Z.pos d)).
    { apply Qmult_le_compat_r; [lra|]. lra. }
    assert (2 ^ (a - b - 1) * inject_Z (Z.pos d) < 2 ^ (a - b - 1) * 2 ^ (b + 1)).
    { apply Qmult_lt_l; lra. }
    lra. }
  destruct (Qlt_bool q (2 ^ (a - b))) eqn:E.
  - apply Qlt_bool_iff in E.
    replace (a - b - 1 + 1)%Z with (a - b)%Z by lia. split; lra.
  - apply Qlt_bool_false_iff in E. split; lra.
Qed.


Lemma round_half_even_lt x (n : Z) :
  x + (1#2) < inject_Z n -> (round_half_even x < n)%Z.
Proof.
  intros H. pose proof (round_half_even_bounds x) as [_ B].
  rewrite Zlt_Qlt. lra.
Qed.

Lemma ulp_pos q : 0 < ulp q.
Proof. apply pow2_pos. Qed.

(** The rounded value is a 53-bit multiple of the unit in the last place. *)
Lemma roundPos_repr (q : Q) :
  0 < q ->
  exists m : Z,
    roundPos q == inject_Z m * ulp q /\ (0 <= m <= 2 ^ 53)%Z
    /\ inject_Z m - (1#2) <= q / ulp q <= inject_Z m + (1#2).
Proof.
  intros Hq. exists (round_half_even (q / ulp q)).
  split; [reflexivity|].
  pose proof (ulp_pos q) as Hu.
  pose proof (floor_log2_spec q Hq) as [_ Hup].
  pose proof (round_half_even_bounds (q / ulp q)) as [B1 B2].
  split; [split|split; lra].
  - apply round_half_even_ge. change (inject_Z 0) with 0.
    apply Qle_shift_div_l; [exact Hu|]. lra.
  - apply round_half_even_le. rewrite pow2_inject by lia.
    apply Qle_shift_div_r; [exact Hu|]. unfold ulp.
    rewrite <- pow2_plus.
    apply Qlt_le_weak. eapply Qlt_le_trans; [exact Hup|].
    apply Qpower_le_compat_l; [lia|lra].
Qed.

Lemma roundPos_pos_bound q : 0 < q -> 0 <= roundPos q.
Proof.
  intros Hq. destruct (roundPos_repr q Hq) as [m [E [[Hm _] _]]].
  rewrite E. apply Qmult_le_0_compat.
  - change 0 with (inject_Z 0). now rewrite <- Zle_Qle.
  - apply Qlt_le_weak, ulp_pos.
Qed.

Lemma roundPos_binary64 q :
  0 < q -> roundPos q < overflowThreshold -> binary64 (roundPos q).
Proof.
  intros Hq Hfin. destruct (roundPos_repr q Hq) as [m [E [[Hm0 Hm] _]]].
  exists m, (Z.max (floor_log2 q) (-1022) - 52)%Z.
  split; [exact E|]. split; [lia|]. split; [lia|].
  rewrite Qabs_pos; [exact Hfin|]. now apply roundPos_pos_bound.
Qed.

Lemma binary64_opp q : binary64 q -> binary64 (- q).
Proof.
  intros [m [e [E [Hm [He Hb]]]]]. exists (- m)%Z, e.
  split; [|split; [lia|split; [lia|]]].
  - rewrite E, inject_Z_opp. ring.
  - now rewrite Qabs_opp.
Qed.

Lemma binary64_0 : binary64 0.
Proof.
  exists 0%Z, 0%Z. split; [reflexivity|]. split; [lia|]. split; [lia|].
  reflexivity.
Qed.

Lemma binary64_eq (x y : Q) : x == y -> binary64 x -> binary64 y.
Proof.
  intros E [m [e H]]. exists m, e. now rewrite <- E.
Qed.

(** A binary64 value is on every grid finer than its own, or small. *)
Lemma binary64_grid (q : Q) (g : Z) :
  binary64 q ->
  (exists K : Z, q == inject_Z K * 2 ^ g) \/ Qabs q <= 2 ^ (g + 52).
Proof.
  intros [m [e [E [Hm _]]]].
  destruct (Z_le_gt_dec g e) as [Hge|Hlt].
  - left. exists (m * 2 ^ (e - g))%Z.
    rewrite E, inject_Z_mult, pow2_inject by lia.
    rewrite <- Qmult_assoc, <- pow2_plus.
    replace (e - g + g)%Z with e by lia. reflexivity.
  - right. rewrite E, Qabs_Qmult.
    rewrite (Qabs_pos (2 ^ e)) by (apply Qlt_le_weak, pow2_pos).
    change (Qabs (inject_Z m)) with (inject_Z (Z.abs m)).
    replace (g + 52)%Z with (53 + (g - 1))%Z by lia. rewrite pow2_plus.
    assert (H1 : inject_Z (Z.abs m) <= 2 ^ 53).
    { rewrite <- pow2_inject by lia. now rewrite <- Zle_Qle. }
    assert (H2 : 2 ^ e <= 2 ^ (g - 1)).
    { apply Qpower_le_compat_l; [lia|lra]. }
    pose proof (pow2_pos e). pose proof (pow2_pos 53).
    apply Qle_trans with (2 ^ 53 * 2 ^ e).
    + apply Qmult_le_compat_r; lra.
    + apply Qmult_le_l; lra.
Qed.


Lemma grid_ge (q : Q) (K : Z) (g : positive) (lo : Z) (c : Q) :
  q == inject_Z K * (1 # g) ->
  inject_Z lo * (1 # g) < c ->
  c <= q ->
  inject_Z (lo + 1) * (1 # g) <= q.
Proof.
  intros E Hlo Hc.
  assert (H : inject_Z lo < inject_Z K).
  { rewrite E in Hc.
    assert (P : 0 < 1 # g) by reflexivity.
    apply Qnot_le_lt. intros C.
    apply (Qmult_le_compat_r _ _ (1 # g)) in C; [lra|lra]. }
  rewrite <- Zlt_Qlt in H.
  assert (H' : inject_Z (lo + 1) <= inject_Z K) by (rewrite <- Zle_Qle; lia).
  rewrite E. apply Qmult_le_compat_r; [exact H'|]. discriminate.
Qed.

(** No binary64 value lies between the decimal 0.01 and the Number 0.01. *)
Lemma binary64_ge_0_01 (q : Q) :
  binary64 q -> 1 # 100 <= q -> (5764607523034235 # 576460752303423488) <= q.
Proof.
  intros Hb Hq. destruct (binary64_grid q (-59) Hb) as [[K E] | Hsmall].
  - change (2 ^ (-59)) with (1 # 576460752303423488) in E.
    pose proof (grid_ge q K _ 5764607523034234 (1 # 100) E
                  ltac:(reflexivity) Hq) as H.
    eapply Qle_trans; [|exact H]. discriminate.
  - pose proof (Qle_Qabs q).
    change (2 ^ (-59 + 52)) with (1 # 128) in Hsmall. lra.
Qed.

Lemma binary64_lt_0_1 (q : Q) :
  binary64 q -> (q < (3602879701896397 # 36028797018963968) <-> q < 1 # 10).
Proof.
  intros Hb. split; intros H.
  - apply Qnot_le_lt. intros C.
    destruct (binary64_grid q (-56) Hb) as [[K E] | Hsmall].
    + change (2 ^ (-56)) with (1 # 72057594037927936) in E.
      pose proof (grid_ge q K _ 7205759403792793 (1 # 10) E
                    ltac:(reflexivity) C) as H'.
      assert ((3602879701896397 # 36028797018963968) <= q); [|lra].
      eapply Qle_trans; [|exact H']. discriminate.
    + pose proof (Qle_Qabs q).
      change (2 ^ (-56 + 52)) with (1 # 16) in Hsmall. lra.
  - assert (1 # 10 < (3602879701896397 # 36028797018963968)) by reflexivity. lra.
Qed.

Lemma binary64_below_1 (q : Q) :
  binary64 q -> q < 1 -> q <= 1 - (1 # 9007199254740992).
Proof.
  intros Hb Hq. destruct (binary64_grid q (-53) Hb) as [[K E] | Hsmall].
  - change (2 ^ (-53)) with (1 # 9007199254740992) in E.
    assert (H : inject_Z K < inject_Z 9007199254740992).
    { apply Qnot_le_lt. intros C.
      apply (Qmult_le_compat_r _ _ (1 # 9007199254740992)) in C; [|discriminate].
      rewrite <- E in C.
      assert (inject_Z 9007199254740992 * (1 # 9007199254740992) == 1) by reflexivity.
      lra. }
    rewrite <- Zlt_Qlt in H.
    assert (H' : inject_Z K <= inject_Z 9007199254740991) by (rewrite <- Zle_Qle; lia).
    apply (Qmult_le_compat_r _ _ (1 # 9007199254740992)) in H'; [|discriminate].
    rewrite <- E in H'.
    assert (inject_Z 9007199254740991 * (1 # 9007199254740992) == 1 - (1 # 9007199254740992)) by reflexivity.
    lra.
  - pose proof (Qle_Qabs q).
    change (2 ^ (-53 + 52)) with (1 # 2) in Hsmall. lra.
Qed.


Lemma roundToNumber_binary64 q v : roundToNumber q = Fin v -> binary64 v.
Proof.
  unfold roundToNumber.
  destruct (Qcompare_spec q 0) as [E|E|E].
  - intros H; injection H as <-. apply binary64_0.
  - destruct (Qle_bool overflowThreshold (roundPos (- q))) eqn:O;
      [discriminate|].
    intros H.
    assert (Hv : Qred (- roundPos (- q)) = v) by congruence. rewrite <- Hv.
    apply (binary64_eq (- roundPos (- q))); [apply Qeq_sym, Qred_correct|].
    apply binary64_opp, roundPos_binary64; [lra|].
    apply Qnot_le_lt. intros C. apply Qle_bool_iff in C. congruence.
  - destruct (Qle_bool overflowThreshold (roundPos q)) eqn:O; [discriminate|].
    intros H.
    assert (Hv : Qred (roundPos q) = v) by congruence. rewrite <- Hv.
    apply (binary64_eq (roundPos q)); [apply Qeq_sym, Qred_correct|].
    apply roundPos_binary64; [lra|].
    apply Qnot_le_lt. intros C. apply Qle_bool_iff in C. congruence.
Qed.

(** Rounding moves a value by half a unit in the last place at most. *)
Lemma roundPos_error q :
  0 < q -> Qabs (roundPos q - q) <= ulp q * (1 # 2).
Proof.
  intros Hq. destruct (roundPos_repr q Hq) as [m [E [_ [B1 B2]]]].
  pose proof (ulp_pos q) as Hu.
  assert (Hd : q / ulp q * ulp q == q) by (field; lra).
  apply (Qmult_le_compat_r _ _ (ulp q)) in B1; [|lra].
  apply (Qmult_le_compat_r _ _ (ulp q)) in B2; [|lra].
  rewrite Hd in B1, B2. rewrite E.
  apply Qabs_Qle_condition. split; lra.
Qed.

Lemma floor_log2_lt (q : Q) (k : Z) :
  0 < q -> q < 2 ^ k -> (floor_log2 q < k)%Z.
Proof.
  intros Hq Hk. destruct (floor_log2_spec q Hq) as [L _].
  apply (Qpower_lt_compat_l_inv 2); [|lra].
  eapply Qle_lt_trans; eauto.
Qed.

Lemma floor_log2_ge (q : Q) (k : Z) :
  0 < q -> 2 ^ k <= q -> (k <= floor_log2 q)%Z.
Proof.
  intros Hq Hk. destruct (floor_log2_spec q Hq) as [_ U].
  assert (H : (k < floor_log2 q + 1)%Z); [|lia].
  apply (Qpower_lt_compat_l_inv 2); [|lra].
  eapply Qle_lt_trans; eauto.
Qed.

(** Below a power of two the rounded value is at most that power. *)
Lemma roundPos_le_pow2 (q : Q) (k : Z) :
  0 < q -> q < 2 ^ k -> (-1022 < k)%Z -> roundPos q <= 2 ^ k.
Proof.
  intros Hq Hk Hmin.
  pose proof (floor_log2_lt q k Hq Hk) as He.
  destruct (roundPos_repr q Hq) as [m [E [[_ Hm] _]]].
  rewrite E. unfold ulp.
  set (e := Z.max (floor_log2 q) (-1022)).
  assert (H1 : inject_Z m <= 2 ^ 53).
  { rewrite <- pow2_inject by lia. now rewrite <- Zle_Qle. }
  assert (H2 : 2 ^ 53 * 2 ^ (e - 52) <= 2 ^ k).
  { rewrite <- pow2_plus. apply Qpower_le_compat_l; [lia|lra]. }
  pose proof (pow2_pos (e - 52)).
  eapply Qle_trans; [|exact H2]. apply Qmult_le_compat_r; lra.
Qed.

(** [Math.random() * 5000] stays below 5000 after rounding. *)
Lemma random_times_5000 (r : Q) :
  binary64 r -> 0 <= r -> r < 1 ->
  exists d : Q,
    roundToNumber (r * 5000) = Fin d
    /\ 0 <= d /\ d < 5000
    /\ Qabs (d - r * 5000) <= 1 # 2199023255552.
Proof.
  intros Hb H0 H1.
  pose proof (binary64_below_1 r Hb H1) as Hmax.
  unfold roundToNumber.
  destruct (Qcompare_spec (r * 5000) 0) as [E|E|E]; [| lra |].
  - exists 0. split; [reflexivity|]. split; [lra|]. split; [lra|].
    apply Qabs_Qle_condition. split; lra.
  - set (p := r * 5000) in *.
    assert (Hp13 : p < 2 ^ 13).
    { change (2 ^ 13) with 8192. unfold p. lra. }
    pose proof (floor_log2_lt p 13 E Hp13) as He.
    assert (Hround : roundPos p < 5000 /\ ulp p <= 1 # 1099511627776).
    { destruct (Z_le_gt_dec (floor_log2 p) 11) as [Hlow|Hhigh].
      - split.
        + assert (Hp12 : p < 2 ^ 12).
          { destruct (floor_log2_spec p E) as [_ U].
            eapply Qlt_le_trans; [exact U|].
            apply Qpower_le_compat_l; [lia|lra]. }
          pose proof (roundPos_le_pow2 p 12 E Hp12 ltac:(lia)) as H.
          change (2 ^ 12) with 4096 in H. lra.
        + unfold ulp. change (1 # 1099511627776) with (2 ^ (-40)).
          apply Qpower_le_compat_l; [lia|lra].
      - assert (He12 : floor_log2 p = 12%Z) by lia.
        assert (Hu : ulp p = 1 # 1099511627776).
        { unfold ulp. rewrite He12. reflexivity. }
        split; [|rewrite Hu; apply Qle_refl].
        unfold roundPos. rewrite Hu.
        assert (Hm : (round_half_even (p / (1 # 1099511627776))
                      < 5497558138880000)%Z).
        { apply round_half_even_lt.
          assert (Hd : p / (1 # 1099511627776) == p * 1099511627776)
            by (field; discriminate).
          rewrite Hd. unfold p.
          change (inject_Z 5497558138880000) with 5497558138880000. lra. }
        assert (Hm' : inject_Z (round_half_even (p / (1 # 1099511627776)))
                      <= inject_Z 5497558138879999)
          by (rewrite <- Zle_Qle; lia).
        apply (Qmult_le_compat_r _ _ (1 # 1099511627776)) in Hm';
          [|discriminate].
        eapply Qle_lt_trans; [exact Hm'|]. reflexivity. }
    destruct Hround as [Hlt Hulp].
    destruct (Qle_bool overflowThreshold (roundPos p)) eqn:O.
    { apply Qle_bool_iff in O.
      assert (5000 < overflowThreshold) by reflexivity. lra. }
    exists (Qred (roundPos p)). split; [reflexivity|].
    rewrite Qred_correct.
    split; [now apply roundPos_pos_bound|]. split; [exact Hlt|].
    eapply Qle_trans; [apply roundPos_error; exact E|].
    apply (Qmult_le_compat_r _ _ (1 # 2)) in Hulp; [|discriminate].
    eapply Qle_trans; [exact Hulp|]. discriminate.
Qed.

Lemma parseFloat_binary64 (s : jsstring) (v : Q) :
  parseFloat s = Fin v -> binary64 v.
Proof.
  unfold parseFloat.
  destruct (match trimStart s with
            | c :: r => if (c =? 45)%N then (true, r)
                        else if (c =? 43)%N then (false, r)
                        else (false, trimStart s)
            | [] => (false, trimStart s)
            end) as [negative body].
  destruct (startsWith body (js "Infinity")).
  - destruct negative; discriminate.
  - destruct (unsignedDecimal body); [apply roundToNumber_binary64|discriminate].
Qed.

(** *** Amount validation *)

Lemma parseFloat_empty : parseFloat [] = NaN.
Proof. reflexivity. Qed.

(** On a finite parse result the chain of tests of [validateAmount] is a
    chain of comparisons of rationals. *)
Lemma validateAmount_finite (amount : jsstring) (v : Q) :
  parseFloat amount = Fin v ->
  validateAmount amount =
    if Qle_bool v 0 then Some (js "Amount must be greater than 0")
    else if Qlt_bool 10000 v then Some (js "Amount cannot exceed $10,000")
    else if Qlt_bool v (5764607523034235 # 576460752303423488)
         then Some (js "Amount must be at least $0.01")
    else None.
Proof.
  intros H. unfold validateAmount. rewrite H.
  destruct amount as [|c rest]; [rewrite parseFloat_empty in H; discriminate|].
  reflexivity.
Qed.

Lemma validateAmount_not_finite (amount : jsstring) :
  (forall v, parseFloat amount <> Fin v) ->
  validateAmount amount = Some (js "Amount is required")
  \/ validateAmount amount = Some (js "Amount must be greater than 0")
  \/ validateAmount amount = Some (js "Amount cannot exceed $10,000").
Proof.
  intros H. unfold validateAmount.
  destruct amount as [|c rest]; [left; reflexivity|].
  destruct (parseFloat (c :: rest)) as [| | |v]; cbn; auto.
  now destruct (H v).
Qed.

(** C6. The amount is accepted exactly when it parses to a number of the
    closed interval from 0.01 to 10000.  So it is rejected when it parses to
    0 or to a negative number ("must be greater than 0"), to a number above
    10000 ("cannot exceed"), and when it does not parse to a number. *)
Theorem amount_validation (amount : jsstring) :
  (validateAmount amount = None
   <-> exists v : Q, parseFloat amount = Fin v /\ 1 # 100 <= v <= 10000)
  /\ (forall v : Q, parseFloat amount = Fin v -> v <= 0 ->
        validateAmount amount = Some (js "Amount must be greater than 0"))
  /\ (forall v : Q, parseFloat amount = Fin v -> 10000 < v ->
        validateAmount amount = Some (js "Amount cannot exceed $10,000"))
  /\ (parseFloat amount = NaN -> validateAmount amount <> None)
  /\ (parseFloat amount = NInf -> validateAmount amount <> None)
  /\ (parseFloat amount = PInf -> validateAmount amount <> None)
  /\ (forall recipient,
        snd (validateForm amount recipient) = true ->
        exists v : Q, parseFloat amount = Fin v /\ 1 # 100 <= v <= 10000).
Proof.
  assert (Hiff : validateAmount amount = None
                 <-> exists v : Q, parseFloat amount = Fin v
                                   /\ 1 # 100 <= v <= 10000).
  { split.
    - intros Hnone. destruct (parseFloat amount) as [| | |v] eqn:E.
      1-3: destruct (validateAmount_not_finite amount) as [H|[H|H]];
        try (rewrite E; discriminate); congruence.
      exists v. split; [reflexivity|].
      rewrite (validateAmount_finite amount v E) in Hnone.
      destruct (Qle_bool v 0) eqn:A; [discriminate|].
      destruct (Qlt_bool 10000 v) eqn:B; [discriminate|].
      destruct (Qlt_bool v (5764607523034235 # 576460752303423488)) eqn:C;
        [discriminate|].
      apply Qlt_bool_false_iff in B, C.
      assert (1 # 100 <= 5764607523034235 # 576460752303423488)
        by discriminate.
      split; lra.
    - intros [v [E [Hlo Hhi]]].
      rewrite (validateAmount_finite amount v E).
      pose proof (binary64_ge_0_01 v (parseFloat_binary64 amount v E) Hlo)
        as Hd.
      destruct (Qle_bool v 0) eqn:A; [apply Qle_bool_iff in A; lra|].
      destruct (Qlt_bool 10000 v) eqn:B; [apply Qlt_bool_iff in B; lra|].
      destruct (Qlt_bool v (5764607523034235 # 576460752303423488)) eqn:C;
        [apply Qlt_bool_iff in C; lra|].
      reflexivity. }
  split; [exact Hiff|]. split; [|split; [|split; [|split; [|split]]]].
  - intros v E Hv. rewrite (validateAmount_finite amount v E).
    now rewrite (proj2 (Qle_bool_iff v 0) Hv).
  - intros v E Hv. rewrite (validateAmount_finite amount v E).
    destruct (Qle_bool v 0) eqn:A; [apply Qle_bool_iff in A; lra|].
    now rewrite (proj2 (Qlt_bool_iff 10000 v) Hv).
  - intros E Hnone. apply Hiff in Hnone. destruct Hnone as [v [Hv _]].
    congruence.
  - intros E Hnone. apply Hiff in Hnone. destruct Hnone as [v [Hv _]].
    congruence.
  - intros E Hnone. apply Hiff in Hnone. destruct Hnone as [v [Hv _]].
    congruence.
  - intros recipient Hvalid. apply Hiff. unfold validateForm in Hvalid.
    cbn [snd Errors.amount Errors.recipient] in Hvalid.
    destruct (validateAmount amount); [discriminate|reflexivity].
Qed.

(** *** Chaos mode on *)

(** C8. With chaos mode on, for draws [rnd1], [rnd2] of [[0,1)]: the delay
    of [applyChaos], of GET and of POST is the Number [rnd1 * 5000], which
    is within [2^-41] of the exact product and lies in [[0, 5000)]; and the
    answer is the 500 error exactly when [rnd2] is below 0.1, the draws
    that make up a tenth of the interval. *)
Theorem chaos_enabled_delay_and_error
    (rnd1 rnd2 : Q) (now : Clock) (rnd36 : jsstring)
    (body : SendMoneyRequest.t)
    (Hdraw1 : binary64 rnd1 /\ 0 <= rnd1 < 1)
    (Hdraw2 : binary64 rnd2 /\ 0 <= rnd2 < 1) :
  exists d : Q,
    mul (Fin rnd1) lit_5000 = Fin d
    /\ Qabs (d - rnd1 * 5000) <= 1 # 2199023255552
    /\ 0 <= d < 5000
    /\ latency (applyChaos true rnd1 rnd2) = Some (Fin d)
    /\ delay (getTransactionsHandler true rnd1 rnd2 now) = Some (Fin d)
    /\ delay (postTransactionHandler true rnd1 rnd2 now rnd36 body)
       = Some (Fin d)
    /\ (shouldError (applyChaos true rnd1 rnd2) = true <-> rnd2 < 1 # 10)
    /\ (HttpResponse.status
          (response (getTransactionsHandler true rnd1 rnd2 now)) = 500%N
        <-> rnd2 < 1 # 10)
    /\ (HttpResponse.status
          (response (postTransactionHandler true rnd1 rnd2 now rnd36 body))
        = 500%N
        <-> rnd2 < 1 # 10).
Proof.
  destruct Hdraw1 as [Hb1 [Hlo1 Hhi1]]. destruct Hdraw2 as [Hb2 _].
  destruct (random_times_5000 rnd1 Hb1 Hlo1 Hhi1) as [d [Hd [Hd0 [Hd1 Herr]]]].
  assert (Hmul : mul (Fin rnd1) lit_5000 = Fin d) by exact Hd.
  assert (Hshould : shouldError (applyChaos true rnd1 rnd2) = true
                    <-> rnd2 < 1 # 10).
  { change (shouldError (applyChaos true rnd1 rnd2))
      with (Qlt_bool rnd2 (3602879701896397 # 36028797018963968)).
    rewrite Qlt_bool_iff. now apply binary64_lt_0_1. }
  exists d. split; [exact Hmul|]. split; [exact Herr|].
  split; [split; assumption|].
  assert (Hlat : latency (applyChaos true rnd1 rnd2) = Some (Fin d)).
  { unfold applyChaos. cbn [negb latency]. now rewrite Hmul. }
  split; [exact Hlat|].
  split.
  { unfold getTransactionsHandler.
    destruct (shouldError (applyChaos true rnd1 rnd2)); exact Hlat. }
  split.
  { unfold postTransactionHandler.
    destruct (shouldError (applyChaos true rnd1 rnd2)); exact Hlat. }
  split; [exact Hshould|].
  rewrite get_status, post_status, <- Hshould.
  destruct (shouldError (applyChaos true rnd1 rnd2)); split; split; congruence.
Qed.

Lemma binary64_half : binary64 (1 # 2).
Proof.
  exists 1%Z, (-1)%Z. split; [reflexivity|].
  split; [vm_compute; discriminate|]. split; [lia|]. reflexivity.
Defined.

Lemma binary64_sixteenth : binary64 (1 # 16).
Proof.
  exists 1%Z, (-4)%Z. split; [reflexivity|].
  split; [vm_compute; discriminate|]. split; [lia|]. reflexivity.
Defined.

Lemma chaos_enabled_delay_and_error_witness :
  let now : Clock := fun _ => 1700000000000%Z in
  let body := SendMoneyRequest.mk (literal "25") (js "Al") in
  exists d : Q,
    mul (Fin (1 # 2)) lit_5000 = Fin d
    /\ Qabs (d - (1 # 2) * 5000) <= 1 # 2199023255552
    /\ 0 <= d < 5000
    /\ latency (applyChaos true (1 # 2) (1 # 16)) = Some (Fin d)
    /\ delay (getTransactionsHandler true (1 # 2) (1 # 16) now)
       = Some (Fin d)
    /\ delay (postTransactionHandler true (1 # 2) (1 # 16) now
                (js "0.4fzyo82mvyr") body)
       = Some (Fin d)
    /\ (shouldError (applyChaos true (1 # 2) (1 # 16)) = true
        <-> 1 # 16 < 1 # 10)
    /\ (HttpResponse.status
          (response (getTransactionsHandler true (1 # 2) (1 # 16) now))
        = 500%N
        <-> 1 # 16 < 1 # 10)
    /\ (HttpResponse.status
          (response (postTransactionHandler true (1 # 2) (1 # 16) now
                       (js "0.4fzyo82mvyr") body))
        = 500%N
        <-> 1 # 16 < 1 # 10).
Proof.
  intros now body.
  apply (chaos_enabled_delay_and_error (1 # 2) (1 # 16) now
           (js "0.4fzyo82mvyr") body).
  - split; [exact binary64_half|]. split; discriminate || reflexivity.
  - split; [exact binary64_sixteenth|]. split; discriminate || reflexivity.
Defined.

End Numbers.

(** *** The form on concrete inputs *)

Example amount_lower_bound_accepted :
  validateAmount (js "0.01") = None /\ validateAmount (js "10000") = None.
Proof. split; reflexivity. Qed.

Example amount_rejections :
  validateAmount (js "0") = Some (js "Amount must be greater than 0")
  /\ validateAmount (js "10000.01") = Some (js "Amount cannot exceed $10,000")
  /\ validateAmount (js "0.009") = Some (js "Amount must be at least $0.01")
  /\ validateAmount (js "abc") = Some (js "Amount must be greater than 0")
  /\ validateAmount (js "") = Some (js "Amount is required").
Proof. repeat split; reflexivity. Qed.

Example recipient_examples :
  validateRecipient (js "  ") = Some (js "Recipient name is required")
  /\ validateRecipient (js " A ")
     = Some (js "Recipient name must be at least 2 characters")
  /\ validateRecipient (js " Al ") = None.
Proof. repeat split; reflexivity. Qed.

Example submit_example :
  handleSubmit (js "12.5") (js " Al ")
  = [Mutate (SendMoneyRequest.mk (Fin (25 # 2)) (js "Al"))].
Proof. reflexivity. Qed.

Example literal_0_01 :
  lit_0_01 = Fin (5764607523034235 # 576460752303423488)
  /\ lit_0_1 = Fin (3602879701896397 # 36028797018963968).
Proof. split; reflexivity. Qed.

(* ================================================================== *)
(** ** Further properties of the form *)
(* ================================================================== *)

Section Form.

Local Open Scope Q_scope.

(** *** What [trim] leaves *)

Lemma trimEnd_prefix (t : jsstring) :
  exists ws, t = trimEnd t ++ ws /\ forallb isWhiteSpace ws = true.
Proof.
  unfold trimEnd. destruct (trimStart_suffix (rev t)) as [ws [E W]].
  exists (rev ws). split.
  - rewrite <- rev_app_distr, <- E. now rewrite rev_involutive.
  - apply forallb_forall. intros x Hx. rewrite forallb_forall in W.
    apply W. now apply in_rev.
Qed.

Lemma trim_decomposition (s : jsstring) :
  exists before after,
    s = before ++ trim s ++ after
    /\ forallb isWhiteSpace before = true
    /\ forallb isWhiteSpace after = true.
Proof.
  destruct (trimStart_suffix s) as [before [E1 W1]].
  destruct (trimEnd_prefix (trimStart s)) as [after [E2 W2]].
  exists before, after. unfold trim. rewrite <- E2. auto.
Qed.

Lemma trimEnd_last (t front : jsstring) (c : code_unit) :
  trimEnd t = front ++ [c] -> isWhiteSpace c = false.
Proof.
  unfold trimEnd. intros H. apply (f_equal (@rev _)) in H.
  rewrite rev_involutive, rev_app_distr in H. simpl in H.
  eapply trimStart_head; eauto.
Qed.

Lemma trim_first (s rest : jsstring) (c : code_unit) :
  trim s = c :: rest -> isWhiteSpace c = false.
Proof.
  intros H. destruct (trimEnd_prefix (trimStart s)) as [ws [E _]].
  fold (trim s) in E. rewrite H in E. simpl in E.
  eapply trimStart_head; eauto.
Qed.

Lemma trim_last (s front : jsstring) (c : code_unit) :
  trim s = front ++ [c] -> isWhiteSpace c = false.
Proof. apply trimEnd_last. Qed.

(** *** What the form submits *)

Lemma validateForm_valid_iff (amount recipient : jsstring) :
  snd (validateForm amount recipient) = true
  <-> validateAmount amount = None /\ validateRecipient recipient = None.
Proof.
  unfold validateForm. cbn [snd Errors.amount Errors.recipient].
  destruct (validateAmount amount), (validateRecipient recipient);
    split; try discriminate; try tauto; intros [? ?]; discriminate.
Qed.

Lemma validateAmount_none_iff (amount : jsstring) :
  validateAmount amount = None
  <-> exists v : Q, parseFloat amount = Fin v /\ 1 # 100 <= v <= 10000.
Proof.
  split.
  - intros Hnone. destruct (parseFloat amount) as [| | |v] eqn:E.
    1-3: destruct (validateAmount_not_finite amount) as [H|[H|H]];
      try (rewrite E; discriminate); congruence.
    exists v. split; [reflexivity|].
    rewrite (validateAmount_finite amount v E) in Hnone.
    destruct (Qle_bool v 0) eqn:A; [discriminate|].
    destruct (Qlt_bool 10000 v) eqn:B; [discriminate|].
    destruct (Qlt_bool v (5764607523034235 # 576460752303423488)) eqn:C;
      [discriminate|].
    apply Qlt_bool_false_iff in B, C.
    assert (1 # 100 <= 5764607523034235 # 576460752303423488)
      by discriminate.
    split; lra.
  - intros [v [E [Hlo Hhi]]].
    rewrite (validateAmount_finite amount v E).
    pose proof (binary64_ge_0_01 v (parseFloat_binary64 amount v E) Hlo)
      as Hd.
    destruct (Qle_bool v 0) eqn:A; [apply Qle_bool_iff in A; lra|].
    destruct (Qlt_bool 10000 v) eqn:B; [apply Qlt_bool_iff in B; lra|].
    destruct (Qlt_bool v (5764607523034235 # 576460752303423488)) eqn:C;
      [apply Qlt_bool_iff in C; lra|].
    reflexivity.
Qed.

Lemma validateRecipient_none_iff (recipient : jsstring) :
  validateRecipient recipient = None
  <-> (2 <= JS.length (trim recipient))%nat.
Proof.
  unfold validateRecipient.
  destruct (trim recipient) as [|a [|b r]]; simpl;
    split; intros H; try discriminate; try lia; reflexivity.
Qed.

(** X1. [handleSubmit] either sends nothing, when [validateForm] finds
    an error, or calls [mutate] once, with a finite amount of the interval
    from 0.01 to 10000 and a recipient of two code units at least that
    neither starts nor ends with white space. *)
Theorem form_submits_valid_payload_or_nothing (amount recipient : jsstring) :
  (snd (validateForm amount recipient) = false
   /\ handleSubmit amount recipient = [])
  \/ (snd (validateForm amount recipient) = true
      /\ exists v : Q,
           handleSubmit amount recipient
           = [Mutate (SendMoneyRequest.mk (Fin v) (trim recipient))]
           /\ parseFloat amount = Fin v
           /\ 1 # 100 <= v <= 10000
           /\ (2 <= JS.length (trim recipient))%nat
           /\ (forall c rest,
                 trim recipient = c :: rest -> isWhiteSpace c = false)
           /\ (forall c front,
                 trim recipient = front ++ [c] -> isWhiteSpace c = false)).
Proof.
  destruct (snd (validateForm amount recipient)) eqn:V.
  - right. split; [reflexivity|].
    pose proof V as V'. apply validateForm_valid_iff in V'.
    destruct V' as [Ha Hr].
    apply validateAmount_none_iff in Ha.
    destruct Ha as [v [Hv Hrange]].
    exists v. split.
    { rewrite (handleSubmit_valid _ _ V), Hv. reflexivity. }
    split; [exact Hv|]. split; [exact Hrange|]. split.
    { now apply validateRecipient_none_iff. }
    split; intros c other H; [eapply trim_first|eapply trim_last]; eauto.
  - left. split; [reflexivity|]. unfold handleSubmit. now rewrite V.
Qed.

(** *** The [errors] state and the button *)

Lemma keysLength_effect (amount recipient : jsstring) (e : ErrorsState.t) :
  keysLength (clearErrorsEffect amount recipient e) = keysLength e.
Proof.
  destruct e as [[| |ma] [| |mr]]; unfold clearErrorsEffect, keysLength;
    cbn [ErrorsState.amount ErrorsState.recipient slotTruthy];
    rewrite ?andb_false_r;
    try destruct (truthy amount && truthy ma);
    try destruct (truthy recipient && truthy mr); reflexivity.
Qed.

Lemma validateAmount_message_truthy (amount text : jsstring) :
  validateAmount amount = Some text -> truthy text = true.
Proof.
  unfold validateAmount.
  repeat match goal with
         | |- context [if ?b then _ else _] => destruct b
         end; intros H; try discriminate H; injection H as <-; reflexivity.
Qed.

Lemma validateRecipient_message_truthy (recipient text : jsstring) :
  validateRecipient recipient = Some text -> truthy text = true.
Proof.
  unfold validateRecipient.
  repeat match goal with
         | |- context [if ?b then _ else _] => destruct b
         end; intros H; try discriminate H; injection H as <-; reflexivity.
Qed.

(** X2. When a submit passes the enabled button (so both fields are
    non-empty) and [validateForm] stores its errors, the effect that runs
    after the render overwrites every message with [undefined]: no
    message is left to display, a further run of the effect changes
    nothing, and the keys of the overwritten messages are still in the
    object. *)
Theorem validation_messages_are_cleared
    (isPending : bool) (amount recipient : jsstring)
    (before : ErrorsState.t)
    (Henabled : isDisabled isPending amount recipient before = false) :
  let recorded := setErrors (fst (validateForm amount recipient)) in
  let shown := clearErrorsEffect amount recipient recorded in
  slotTruthy (ErrorsState.amount shown) = false
  /\ slotTruthy (ErrorsState.recipient shown) = false
  /\ clearErrorsEffect amount recipient shown = shown
  /\ keysLength shown = keysLength recorded
  /\ (snd (validateForm amount recipient) = false ->
      (0 < keysLength shown)%nat).
Proof.
  intros recorded shown.
  unfold isDisabled in Henabled.
  apply orb_false_iff in Henabled. destruct Henabled as [Henabled _].
  apply orb_false_iff in Henabled. destruct Henabled as [Henabled Hr].
  apply orb_false_iff in Henabled. destruct Henabled as [_ Ha].
  apply negb_false_iff in Ha, Hr.
  assert (Hkeys : keysLength shown = keysLength recorded)
    by apply keysLength_effect.
  unfold shown, recorded, clearErrorsEffect, setErrors, validateForm in *.
  cbn [fst snd Errors.amount Errors.recipient ErrorsState.amount
         ErrorsState.recipient] in *.
  rewrite Ha, Hr. cbn [andb].
  destruct (validateAmount amount) as [ma|] eqn:Ea;
    destruct (validateRecipient recipient) as [mr|] eqn:Er;
    cbn [slotOf slotTruthy];
    rewrite ?(validateAmount_message_truthy _ _ Ea),
            ?(validateRecipient_message_truthy _ _ Er);
    cbn [slotTruthy andb keysLength ErrorsState.amount
           ErrorsState.recipient Nat.add];
    repeat split; try reflexivity; try lia; try discriminate.
Qed.

Lemma validation_messages_are_cleared_witness :
  let shown :=
    clearErrorsEffect (js "0") (js "A")
      (setErrors (fst (validateForm (js "0") (js "A")))) in
  slotTruthy (ErrorsState.amount shown) = false
  /\ slotTruthy (ErrorsState.recipient shown) = false
  /\ clearErrorsEffect (js "0") (js "A") shown = shown
  /\ keysLength shown
     = keysLength (setErrors (fst (validateForm (js "0") (js "A"))))
  /\ (snd (validateForm (js "0") (js "A")) = false ->
      (0 < keysLength shown)%nat).
Proof.
  apply (validation_messages_are_cleared false (js "0") (js "A") noErrors).
  reflexivity.
Defined.

Lemma keysLength_edits (edits : list (jsstring * jsstring))
    (e : ErrorsState.t) :
  keysLength
    (fold_left (fun e' edit => clearErrorsEffect (fst edit) (snd edit) e')
       edits e)
  = keysLength e.
Proof.
  revert e. induction edits as [|edit edits IH]; intros e; simpl;
    [reflexivity|].
  now rewrite IH, keysLength_effect.
Qed.

(** X3. Once [validateForm] has found an error, the submit button is
    disabled in every later render, whatever is typed into the two fields
    and however often the effect runs: the effect never removes a key
    from [errors], and the button is disabled while [errors] has a key. *)
Theorem button_stays_disabled_after_validation_error
    (amount recipient : jsstring)
    (Hinvalid : snd (validateForm amount recipient) = false) :
  forall (edits : list (jsstring * jsstring)) (isPending : bool)
         (amount' recipient' : jsstring),
    isDisabled isPending amount' recipient'
      (fold_left (fun e edit => clearErrorsEffect (fst edit) (snd edit) e)
         edits (setErrors (fst (validateForm amount recipient))))
    = true.
Proof.
  intros edits isPending amount' recipient'.
  unfold isDisabled. rewrite keysLength_edits.
  assert (H : (0 <? keysLength
                       (setErrors (fst (validateForm amount recipient))))%nat
              = true).
  { unfold validateForm, setErrors, keysLength in *.
    cbn [fst snd Errors.amount Errors.recipient ErrorsState.amount
           ErrorsState.recipient] in *.
    destruct (validateAmount amount), (validateRecipient recipient);
      try discriminate Hinvalid; reflexivity. }
  rewrite H. apply orb_true_r.
Qed.

Lemma button_stays_disabled_after_validation_error_witness :
  isDisabled false (js "12.5") (js "Alice")
    (fold_left (fun e edit => clearErrorsEffect (fst edit) (snd edit) e)
       [(js "0", js "Alice"); (js "12.5", js "Alice")]
       (setErrors (fst (validateForm (js "0") (js "Al")))))
  = true.
Proof.
  apply (button_stays_disabled_after_validation_error (js "0") (js "Al")).
  reflexivity.
Defined.

(** *** The amount field *)

Lemma span_fst_all (p : code_unit -> bool) (s : jsstring) :
  Forall (fun c => p c = true) (fst (span p s)).
Proof.
  induction s as [|c s IH]; simpl; [constructor|].
  destruct (p c) eqn:E; [|constructor].
  destruct (span p s) as [a b]. simpl in *. constructor; assumption.
Qed.

Lemma isDigit_bounds (c : code_unit) :
  isDigit c = true <-> (48 <= c <= 57)%N.
Proof.
  unfold isDigit. rewrite andb_true_iff, !N.leb_le. tauto.
Qed.

Lemma digitsValue_nonneg (ds : jsstring) :
  Forall (fun c => isDigit c = true) ds -> (0 <= digitsValue ds)%Z.
Proof.
  unfold digitsValue.
  assert (G : forall acc, (0 <= acc)%Z ->
          Forall (fun c => isDigit c = true) ds ->
          (0 <= fold_left (fun a c => (10 * a + (Z.of_N c - 48))%Z) ds acc)%Z).
  { induction ds as [|c ds IH]; intros acc Hacc Hall; cbn [fold_left];
      [exact Hacc|].
    inversion Hall as [|? ? Hc Hds]; subst. apply IH; [|exact Hds].
    apply isDigit_bounds in Hc. unfold code_unit in *. lia. }
  apply G. lia.
Qed.

Lemma unsignedDecimal_nonneg (s : jsstring) (q : Q) :
  unsignedDecimal s = Some q -> 0 <= q.
Proof.
  unfold unsignedDecimal.
  pose proof (span_fst_all isDigit s) as Hip.
  destruct (span isDigit s) as [ip r1]. cbn [fst] in Hip.
  assert (G : forall fp r2,
            Forall (fun c => isDigit c = true) fp ->
            match ip, fp with
            | [], [] => None
            | _, _ =>
                Some (inject_Z (digitsValue (ip ++ fp))
                      * 10 ^ (exponentPart r2 - Z.of_nat (List.length fp)))
            end = Some q -> 0 <= q).
  { intros fp r2 Hfp H.
    assert (E : q == inject_Z (digitsValue (ip ++ fp))
                     * 10 ^ (exponentPart r2 - Z.of_nat (List.length fp))).
    { destruct ip, fp; try discriminate H; injection H as <-; reflexivity. }
    rewrite E. apply Qmult_le_0_compat.
    - change 0 with (inject_Z 0). rewrite <- Zle_Qle.
      apply digitsValue_nonneg, Forall_app. auto.
    - apply Qpower_0_le. discriminate. }
  destruct r1 as [|c r].
  - apply (G [] []). constructor.
  - destruct (c =? 46)%N.
    + pose proof (span_fst_all isDigit r) as Hfp.
      destruct (span isDigit r) as [f r']. apply (G f r'). exact Hfp.
    + apply (G [] (c :: r)). constructor.
Qed.

Lemma roundToNumber_nonneg (q : Q) :
  0 <= q ->
  roundToNumber q = PInf \/ exists v, roundToNumber q = Fin v /\ 0 <= v.
Proof.
  intros Hq. unfold roundToNumber.
  destruct (Qcompare_spec q 0) as [E|E|E]; [|lra|].
  - right. exists 0. split; [reflexivity|lra].
  - destruct (Qle_bool overflowThreshold (roundPos q)); [now left|].
    right. eexists. split; [reflexivity|].
    rewrite Qred_correct. now apply roundPos_pos_bound.
Qed.

Lemma amountShape_head (c : code_unit) (rest : jsstring) :
  amountShape (c :: rest) = true -> isDigit c = true \/ c = 46%N.
Proof.
  unfold amountShape. cbn [span].
  destruct (isDigit c) eqn:D; [now left|].
  destruct (N.eqb_spec c 46) as [->|Hne]; [now right|].
  cbn [span]. rewrite D. discriminate.
Qed.

Lemma parseFloat_unsigned (c : code_unit) (rest : jsstring) :
  isDigit c = true \/ c = 46%N ->
  parseFloat (c :: rest)
  = match unsignedDecimal (c :: rest) with
    | None => NaN
    | Some q => roundToNumber q
    end.
Proof.
  intros H.
  assert (B : (48 <= c <= 57)%N \/ c = 46%N).
  { destruct H as [H|H]; [left; now apply isDigit_bounds|now right]. }
  assert (W : isWhiteSpace c = false).
  { unfold isWhiteSpace.
    repeat match goal with
           | |- (_ || _)%bool = false => apply orb_false_iff; split
           | |- (_ && _)%bool = false => apply andb_false_iff
           end;
      try (apply N.eqb_neq; lia);
      try (right; apply N.leb_gt; lia);
      try (left; apply N.leb_gt; lia). }
  unfold parseFloat. cbn [trimStart]. rewrite W.
  assert (E45 : (c =? 45)%N = false) by (apply N.eqb_neq; lia).
  assert (E43 : (c =? 43)%N = false) by (apply N.eqb_neq; lia).
  rewrite E45, E43.
  assert (I : startsWith (c :: rest) (js "Infinity") = false).
  { cbn. assert (E73 : (c =? 73)%N = false) by (apply N.eqb_neq; lia).
    now rewrite E73. }
  rewrite I. reflexivity.
Qed.

(** X4. [handleAmountChange] keeps the amount field of the shape digits,
    an optional point, digits: it stores the typed value when it has that
    shape and keeps the previous one otherwise.  A text of that shape never
    parses to a negative number or to minus infinity. *)
Theorem amount_field_keeps_shape (value amount : jsstring)
    (Hshape : amountShape amount = true) :
  let amount' := handleAmountChange value amount in
  amountShape amount' = true
  /\ (amount' = value \/ amount' = amount)
  /\ (amountShape value = true -> amount' = value)
  /\ (parseFloat amount' = NaN
      \/ parseFloat amount' = PInf
      \/ exists v : Q, parseFloat amount' = Fin v /\ 0 <= v).
Proof.
  intros amount'.
  assert (S : amountShape amount' = true).
  { unfold amount', handleAmountChange.
    destruct value as [|c value']; [reflexivity|]. cbn [truthy negb orb].
    destruct (amountShape (c :: value')) eqn:E; assumption. }
  split; [exact S|]. split.
  { unfold amount', handleAmountChange.
    destruct (negb (truthy value) || amountShape value); auto. }
  split.
  { intros Hv. unfold amount', handleAmountChange. rewrite Hv.
    now rewrite orb_true_r. }
  destruct amount' as [|c rest]; [left; reflexivity|].
  rewrite (parseFloat_unsigned c rest (amountShape_head c rest S)).
  destruct (unsignedDecimal (c :: rest)) as [q|] eqn:U; [|now left].
  right. apply roundToNumber_nonneg. eapply unsignedDecimal_nonneg; eauto.
Qed.

Lemma amount_field_keeps_shape_witness :
  let amount' := handleAmountChange (js "12.5") (js "12.") in
  amountShape amount' = true
  /\ (amount' = js "12.5" \/ amount' = js "12.")
  /\ (amountShape (js "12.5") = true -> amount' = js "12.5")
  /\ (parseFloat amount' = NaN
      \/ parseFloat amount' = PInf
      \/ exists v : Q, parseFloat amount' = Fin v /\ 0 <= v).
Proof.
  apply (amount_field_keeps_shape (js "12.5") (js "12.")).
  reflexivity.
Defined.

End Form.

(* ================================================================== *)
(** ** Further properties of the query and of the mutation *)
(* ================================================================== *)

(** *** Client functions over the handlers *)

Lemma sendMoney_rejects_truthy (r : HttpResponse.t) (message : jsstring) :
  sendMoney r = Rejected message -> truthy message = true.
Proof.
  unfold sendMoney. destruct (negb (ok r)).
  - destruct (HttpResponse.body r) as [error| |];
      try (intros H; injection H as <-; reflexivity).
    destruct error as [|c error]; intros H; injection H as <-; reflexivity.
  - destruct (HttpResponse.body r);
      intros H; try discriminate H; injection H as <-; reflexivity.
Qed.

(** X5. Over the mock handlers the client functions settle as the chaos
    decides: [sendMoney] resolves with the created record, or rejects with
    the text of the server, "Internal server error"; [fetchTransactions]
    resolves with the stored list, or rejects with its own fixed text.  A
    rejection of [sendMoney] never has an empty message, and the error
    toast shows that message. *)
Theorem client_outcomes_over_handlers
    (chaosModeEnabled : bool) (rnd1 rnd2 : Q) (now : Clock)
    (rnd36 : jsstring) (body : SendMoneyRequest.t) :
  sendMoney
    (response (postTransactionHandler chaosModeEnabled rnd1 rnd2 now
                 rnd36 body))
  = (if shouldError (applyChaos chaosModeEnabled rnd1 rnd2)
     then Rejected (js "Internal server error")
     else Resolved (createdTransaction now rnd36 body))
  /\ fetchTransactions
       (response (getTransactionsHandler chaosModeEnabled rnd1 rnd2 now))
     = (if shouldError (applyChaos chaosModeEnabled rnd1 rnd2)
        then Rejected (js "Failed to fetch transactions")
        else Resolved (storedTransactions now))
  /\ (forall (r : HttpResponse.t) (message : jsstring)
             (context : option Context) (c : QueryData),
        sendMoney r = Rejected message ->
        truthy message = true
        /\ description (snd (fst (onError message context c))) = message).
Proof.
  split; [|split].
  - rewrite post_answers.
    destruct (shouldError (applyChaos chaosModeEnabled rnd1 rnd2));
      reflexivity.
  - unfold getTransactionsHandler.
    destruct (shouldError (applyChaos chaosModeEnabled rnd1 rnd2));
      reflexivity.
  - intros r message context c H.
    pose proof (sendMoney_rejects_truthy r message H) as T.
    split; [exact T|]. cbn. now rewrite T.
Qed.

(** *** The refetch *)





(** *** Sends that overlap *)

(** X7. Two sends in flight are not reconciled.  With a list [l] cached,
    a first and then a second send submitted: if the first succeeds and
    the second then fails, the rollback of the second puts back its
    snapshot, so the cache holds the first send's pending entry again and
    no longer the record the server created for it; if instead the first
    fails, its rollback removes the pending entry of the second, which is
    still in flight. *)
Theorem overlapping_sends_are_not_reconciled
    (l : list Transaction.t) (now1 now2 : Clock)
    (first second : SendMoneyRequest.t) (data : Transaction.t)
    (message : jsstring) :
  let c1 := fst (onMutate now1 first (Some l)) in
  let k1 := snd (onMutate now1 first (Some l)) in
  let c2 := fst (onMutate now2 second c1) in
  let k2 := snd (onMutate now2 second c1) in
  c2 = Some (optimisticTransaction now2 second
             :: optimisticTransaction now1 first :: l)
  /\ fst (fst (onError message (Some k2) (onSuccess data c2)))
     = Some (optimisticTransaction now1 first :: l)
  /\ (isTemporary data = false -> ~ In data l ->
      ~ In data (stored (fst (fst (onError message (Some k2)
                                     (onSuccess data c2))))))
  /\ fst (fst (onError message (Some k1) c2)) = Some l
  /\ onSuccess data (fst (fst (onError message (Some k1) c2)))
     = Some (data :: filter (fun t => negb (isTemporary t)) l).
Proof.
  intros c1 k1 c2 k2.
  split; [reflexivity|]. split; [reflexivity|]. split.
  - intros Hdata Hnotin Hin.
    change (In data (optimisticTransaction now1 first :: l)) in Hin.
    destruct Hin as [E|Hin]; [|contradiction].
    rewrite <- E, temporary_id_starts_temp in Hdata. discriminate.
  - split; reflexivity.
Qed.

(** *** When the cache is undefined *)

Lemma cache_defined_step (s s' : State) :
  step s s' -> cache s <> None \/ inflight s = [] -> cache s' <> None.
Proof.
  intros Hstep H.
  destruct Hstep as [s now variables
                    | c before after context now rnd36
                    | c before after context message
                    | s now]; cbn [cache inflight] in *;
    try discriminate.
  destruct H as [H|H]; [|destruct before; discriminate].
  destruct context as [[previous|] variables]; cbn; [discriminate|exact H].
Qed.

(** X8. The cache is [undefined] only in the state the page starts in.
    From the first submit or the first fetched list on it holds a list,
    so the fallback [[]] of [App] is displayed only before them; in
    particular no rollback ever empties the cache again. *)
Theorem cache_undefined_only_initially (s : State)
    (Hreach : reachable initialState s) :
  s = initialState \/ cache s <> None.
Proof.
  induction Hreach as [|s s' _ IH Hstep]; [now left|].
  right. apply (cache_defined_step s s' Hstep).
  destruct IH as [->|IH]; [now right|now left].
Qed.

Lemma cache_undefined_only_initially_witness :
  let now : Clock := fun _ => 1700000000000%Z in
  let variables := SendMoneyRequest.mk (literal "25") (js "Al") in
  let s := {| cache := fst (onMutate now variables None);
              inflight := [snd (onMutate now variables None)] |} in
  s = initialState \/ cache s <> None.
Proof.
  intros now variables s.
  apply (cache_undefined_only_initially s).
  eapply reach_step; [apply reach_init|].
  apply (step_submit initialState now variables).
Defined.

(** *** Temporary identifiers *)

Lemma uintToString_inj (d1 d2 : Decimal.uint) :
  uintToString d1 = uintToString d2 -> d1 = d2.
Proof.
  revert d2. induction d1; intros d2 H; destruct d2;
    try discriminate H; try reflexivity;
    injection H as H; f_equal; auto.
Qed.

Lemma uintToString_not_minus (d : Decimal.uint) (rest : jsstring) :
  uintToString d <> 45%N :: rest.
Proof. destruct d; discriminate. Qed.

Lemma integerToString_inj (z1 z2 : Z) :
  integerToString z1 = integerToString z2 -> z1 = z2.
Proof.
  unfold integerToString. intros H. apply DecimalZ.to_int_inj.
  destruct (Z.to_int z1) as [d1|d1], (Z.to_int z2) as [d2|d2].
  - f_equal. now apply uintToString_inj.
  - exfalso. eapply uintToString_not_minus; eauto.
  - exfalso. eapply uintToString_not_minus; eauto.
  - injection H as H. f_equal. now apply uintToString_inj.
Qed.

(** X9. The temporary identifier is made of the clock reading alone: two
    optimistic entries have the same identifier exactly when their sends
    were submitted at the same millisecond, whatever the payloads. *)
Theorem temporary_id_is_the_submission_instant
    (now1 now2 : Clock) (first second : SendMoneyRequest.t) :
  Transaction.id (optimisticTransaction now1 first)
  = Transaction.id (optimisticTransaction now2 second)
  <-> now1 0%nat = now2 0%nat.
Proof.
  unfold optimisticTransaction. cbn [Transaction.id]. split.
  - intros H. apply app_inv_head in H. now apply integerToString_inj.
  - intros ->. reflexivity.
Qed.

(* ================================================================== *)
(** ** Further properties: the age of a transaction *)
(* ================================================================== *)

Section Timestamps.

Local Open Scope Q_scope.

(** *** Quotients of integers, rounded and floored *)

Lemma floor_log2_unique (q : Q) (e : Z) :
  0 < q -> 2 ^ e <= q -> q < 2 ^ (e + 1) -> floor_log2 q = e.
Proof.
  intros Hq L U.
  pose proof (floor_log2_ge q e Hq L).
  pose proof (floor_log2_lt q (e + 1) Hq U). lia.
Qed.

Lemma Qfloor_between (v : Q) (k : Z) :
  inject_Z k <= v -> v < inject_Z (k + 1) -> Qfloor v = k.
Proof.
  intros L U.
  pose proof (Qfloor_le v) as F1. pose proof (Qlt_floor v) as F2.
  assert (H1 : inject_Z (Qfloor v) < inject_Z (k + 1)) by lra.
  assert (H2 : inject_Z k < inject_Z (Qfloor v + 1)) by lra.
  rewrite <- Zlt_Qlt in H1, H2. lia.
Qed.

(** A value on the grid of its own binade is not moved by rounding. *)
Lemma roundPos_on_grid (q : Q) (n : Z) :
  0 < q -> q == inject_Z n * ulp q -> roundPos q == q.
Proof.
  intros Hq E. pose proof (ulp_pos q) as Hu. unfold roundPos.
  assert (D : q / ulp q == inject_Z n).
  { rewrite E at 1. field. lra. }
  assert (R : round_half_even (q / ulp q) = n).
  { apply Z.le_antisymm.
    - apply round_half_even_le. rewrite D. apply Qle_refl.
    - apply round_half_even_ge. rewrite D. apply Qle_refl. }
  rewrite R. symmetry. exact E.
Qed.

(** Integers below [2^53] are binary64 values. *)
Lemma roundPos_integer (q : Q) (k : Z) :
  (0 < k < 2 ^ 53)%Z -> q == inject_Z k -> roundPos q == inject_Z k.
Proof.
  intros [Hk0 Hk] E.
  assert (Hq : 0 < q).
  { rewrite E. change 0 with (inject_Z 0). now rewrite <- Zlt_Qlt. }
  assert (L : 2 ^ 0 <= q).
  { rewrite E. change (2 ^ 0) with (inject_Z 1). rewrite <- Zle_Qle. lia. }
  assert (U : q < 2 ^ 53).
  { rewrite E, <- pow2_inject by lia. now rewrite <- Zlt_Qlt. }
  pose proof (floor_log2_ge q 0 Hq L) as He0.
  pose proof (floor_log2_lt q 53 Hq U) as He.
  rewrite <- E. apply (roundPos_on_grid q (k * 2 ^ (52 - floor_log2 q))).
  - exact Hq.
  - unfold ulp. rewrite Z.max_l by lia.
    rewrite inject_Z_mult, pow2_inject by lia.
    rewrite <- Qmult_assoc, <- pow2_plus.
    replace (52 - floor_log2 q + (floor_log2 q - 52))%Z with 0%Z by lia.
    rewrite E. change (2 ^ 0) with 1. ring.
Qed.

Lemma roundToNumber_integer (q : Q) (k : Z) :
  (0 <= k < 2 ^ 53)%Z -> q == inject_Z k ->
  exists v, roundToNumber q = Fin v /\ v == inject_Z k.
Proof.
  intros [Hk0 Hk] E. unfold roundToNumber.
  destruct (Qcompare_spec q 0) as [C|C|C].
  - exists 0. split; [reflexivity|]. now rewrite <- E, C.
  - exfalso. rewrite E in C. change 0 with (inject_Z 0) in C.
    rewrite <- Zlt_Qlt in C. lia.
  - assert (Hpos : (0 < k)%Z).
    { rewrite E in C. change 0 with (inject_Z 0) in C.
      now rewrite <- Zlt_Qlt in C. }
    pose proof (roundPos_integer q k (conj Hpos Hk) E) as R.
    destruct (Qle_bool overflowThreshold (roundPos q)) eqn:O.
    + exfalso. apply Qle_bool_iff in O. rewrite R in O.
      assert (inject_Z k < inject_Z (2 ^ 53)) by (now rewrite <- Zlt_Qlt).
      assert (inject_Z (2 ^ 53) < overflowThreshold) by reflexivity. lra.
    + eexists. split; [reflexivity|]. now rewrite Qred_correct.
Qed.

Lemma roundToNumber_notPositive (q : Q) :
  q <= 0 -> notPositive (roundToNumber q).
Proof.
  intros Hq. unfold roundToNumber.
  destruct (Qcompare_spec q 0) as [C|C|C]; [| |lra].
  - right. exists 0. split; [reflexivity|lra].
  - destruct (Qle_bool overflowThreshold (roundPos (- q))); [now left|].
    right. eexists. split; [reflexivity|]. rewrite Qred_correct.
    assert (0 <= roundPos (- q)) by (apply roundPos_pos_bound; lra). lra.
Qed.

Lemma floor_div_notPositive (a : number) (b : Z) :
  (0 < b)%Z -> notPositive a ->
  notPositive (floor (div a (Fin (inject_Z b)))).
Proof.
  intros Hb [->|[v [-> Hv]]].
  - left. cbn. now destruct b.
  - assert (Hbq : 0 < inject_Z b).
    { change 0 with (inject_Z 0). now rewrite <- Zlt_Qlt. }
    unfold div. rewrite (proj1 (Qgt_alt _ _) Hbq).
    assert (Hq : v / inject_Z b <= 0).
    { apply Qle_shift_div_r; [exact Hbq|]. lra. }
    destruct (roundToNumber_notPositive _ Hq) as [->|[w [-> Hw]]].
    + now left.
    + right. eexists. split; [reflexivity|].
      change 0 with (inject_Z 0). rewrite <- Zle_Qle.
      assert (Qfloor w <= Qfloor 0)%Z by (apply Qfloor_resp_le; exact Hw).
      exact H.
Qed.

Lemma notPositive_lt (a : number) (k : Z) :
  (0 < k)%Z -> notPositive a -> ltb a (Fin (inject_Z k)) = true.
Proof.
  intros Hk [->|[v [-> Hv]]]; [reflexivity|].
  cbn [ltb]. apply Qlt_bool_iff.
  assert (0 < inject_Z k)
    by (change 0 with (inject_Z 0); now rewrite <- Zlt_Qlt).
  lra.
Qed.

(** On integers of less than 54 bits, the rounded quotient floors to the
    quotient of the integer division. *)
Lemma floor_div_integers (x : Q) (a b : Z) :
  (0 <= a < 2 ^ 53)%Z -> (0 < b < 2 ^ 53)%Z -> x == inject_Z a ->
  floor (div (Fin x) (Fin (inject_Z b))) = Fin (inject_Z (a / b)).
Proof.
  intros [Ha0 Ha] [Hb0 Hb] E.
  assert (Hbq : 0 < inject_Z b).
  { change 0 with (inject_Z 0). now rewrite <- Zlt_Qlt. }
  unfold div. rewrite (proj1 (Qgt_alt _ _) Hbq).
  set (k := (a / b)%Z). set (r := (a mod b)%Z).
  assert (Hdiv : a = (b * k + r)%Z) by (apply Z.div_mod; lia).
  assert (Hr : (0 <= r < b)%Z) by (apply Z.mod_pos_bound; lia).
  assert (Hk0 : (0 <= k)%Z) by (apply Z.div_pos; lia).
  assert (Hkb : (k <= a)%Z) by nia.
  set (y := x / inject_Z b).
  assert (Hy : y * inject_Z b == inject_Z k * inject_Z b + inject_Z r).
  { unfold y. rewrite E, Hdiv at 1.
    rewrite inject_Z_plus, inject_Z_mult. field. lra. }
  assert (Hrq : 0 <= inject_Z r < inject_Z b).
  { change 0 with (inject_Z 0). rewrite <- Zle_Qle, <- Zlt_Qlt. exact Hr. }
  destruct (Z.eq_dec r 0) as [Hr0|Hr0].
  - (* the division is exact *)
    assert (Ey : y == inject_Z k).
    { rewrite Hr0 in Hy. change (inject_Z 0) with 0 in Hy.
      apply (Qmult_inj_r _ _ (inject_Z b)); [lra|]. rewrite Hy. ring. }
    destruct (roundToNumber_integer y k ltac:(lia) Ey) as [v [-> Hv]].
    cbn [floor]. now rewrite Hv, Qfloor_Z.
  - (* a remainder is left *)
    assert (Hr1 : inject_Z 1 <= inject_Z r) by (rewrite <- Zle_Qle; lia).
    assert (Hr2 : inject_Z r <= inject_Z (b - 1)) by (rewrite <- Zle_Qle; lia).
    unfold Z.sub in Hr2. rewrite inject_Z_plus in Hr2.
    change (inject_Z 1) with 1 in Hr1.
    change (inject_Z (- (1))) with (-1) in Hr2.
    assert (Hy0 : 0 < y).
    { apply Qnot_le_lt. intros C.
      assert (y * inject_Z b <= 0 * inject_Z b)
        by (apply Qmult_le_compat_r; lra).
      assert (0 <= inject_Z k * inject_Z b).
      { apply Qmult_le_0_compat; [|lra].
        change 0 with (inject_Z 0). now rewrite <- Zle_Qle. }
      lra. }
    (* half a unit in the last place of [y] is less than [1 / b] *)
    assert (Hx53 : x < 2 ^ 53).
    { rewrite E, <- pow2_inject by lia. now rewrite <- Zlt_Qlt. }
    assert (Hb53 : inject_Z b < 2 ^ 53).
    { rewrite <- pow2_inject by lia. now rewrite <- Zlt_Qlt. }
    assert (Hx1 : 1 <= x).
    { rewrite E. change 1 with (inject_Z 1). rewrite <- Zle_Qle. nia. }
    assert (Hyb : y * inject_Z b == x).
    { unfold y. field. lra. }
    pose proof (pow2_pos (-53)) as P53.
    assert (E53 : 2 ^ (-53) * 2 ^ 53 == 1).
    { rewrite <- pow2_plus. reflexivity. }
    assert (Hylow : 2 ^ (-53) <= y).
    { apply Qnot_lt_le. intros C.
      assert (y * inject_Z b < 2 ^ (-53) * 2 ^ 53).
      { apply Qle_lt_trans with (y * 2 ^ 53).
        - apply Qmult_le_l; lra.
        - apply Qmult_lt_r; [apply pow2_pos|exact C]. }
      lra. }
    pose proof (floor_log2_ge y (-53) Hy0 Hylow) as He.
    destruct (floor_log2_spec y Hy0) as [Lo _].
    set (e := floor_log2 y) in *.
    assert (Hulp : ulp y == 2 ^ e * 2 ^ (-52)).
    { unfold ulp. fold e. rewrite Z.max_l by lia.
      rewrite <- pow2_plus. reflexivity. }
    pose proof (pow2_pos e) as Pe.
    assert (E52 : 2 ^ (-52) * (1 # 2) * 2 ^ 53 == 1) by reflexivity.
    assert (Hhalf : ulp y * (1 # 2) * inject_Z b < 1).
    { rewrite Hulp.
      assert (2 ^ e * inject_Z b <= x).
      { rewrite <- Hyb. apply Qmult_le_compat_r; lra. }
      assert (T : 2 ^ e * 2 ^ (-52) * (1 # 2) * inject_Z b
                  == 2 ^ e * inject_Z b * (2 ^ (-52) * (1 # 2))) by ring.
      rewrite T.
      assert (Hc : 0 < 2 ^ (-52) * (1 # 2)) by reflexivity.
      apply Qle_lt_trans with (x * (2 ^ (-52) * (1 # 2))).
      - apply Qmult_le_compat_r; lra.
      - apply Qlt_le_trans with (2 ^ 53 * (2 ^ (-52) * (1 # 2))).
        + apply Qmult_lt_r; lra.
        + apply Qle_lteq. right. reflexivity. }
    pose proof (roundPos_error y Hy0) as Herr.
    apply Qabs_Qle_condition in Herr. destruct Herr as [Herr1 Herr2].
    set (v := roundPos y) in *.
    assert (Hv1 : inject_Z k < v).
    { apply Qnot_le_lt. intros C.
      assert (y - v <= ulp y * (1 # 2)) by lra.
      assert ((y - v) * inject_Z b <= ulp y * (1 # 2) * inject_Z b)
        by (apply Qmult_le_compat_r; lra).
      assert (v * inject_Z b <= inject_Z k * inject_Z b)
        by (apply Qmult_le_compat_r; lra).
      assert ((y - v) * inject_Z b == y * inject_Z b - v * inject_Z b)
        by ring.
      lra. }
    assert (Hv2 : v < inject_Z (k + 1)).
    { rewrite inject_Z_plus. change (inject_Z 1) with 1.
      apply Qnot_le_lt. intros C.
      assert ((v - y) * inject_Z b <= ulp y * (1 # 2) * inject_Z b)
        by (apply Qmult_le_compat_r; lra).
      assert ((inject_Z k + 1) * inject_Z b <= v * inject_Z b)
        by (apply Qmult_le_compat_r; lra).
      assert ((v - y) * inject_Z b == v * inject_Z b - y * inject_Z b)
        by ring.
      assert ((inject_Z k + 1) * inject_Z b
              == inject_Z k * inject_Z b + inject_Z b) by ring.
      lra. }
    unfold roundToNumber. rewrite (proj1 (Qgt_alt _ _) Hy0). fold v.
    destruct (Qle_bool overflowThreshold v) eqn:O.
    + exfalso. apply Qle_bool_iff in O.
      assert (inject_Z (k + 1) <= inject_Z (2 ^ 53))
        by (rewrite <- Zle_Qle; lia).
      assert (inject_Z (2 ^ 53) < overflowThreshold) by reflexivity. lra.
    + cbn [floor]. f_equal. f_equal. apply Qfloor_between.
      * rewrite Qred_correct. lra.
      * rewrite Qred_correct. exact Hv2.
Qed.

(** *** [formatTimestamp] *)

Lemma ltb_integers (a b : Z) :
  ltb (Fin (inject_Z a)) (Fin (inject_Z b)) = (a <? b)%Z.
Proof.
  cbn [ltb]. destruct (Z.ltb_spec a b) as [H|H].
  - apply Qlt_bool_iff. now rewrite <- Zlt_Qlt.
  - apply Qlt_bool_false_iff. now rewrite <- Zle_Qle.
Qed.

Lemma div_ltb (d c n : Z) :
  (0 < c)%Z -> (d / c <? n)%Z = (d <? c * n)%Z.
Proof.
  intros Hc.
  destruct (Z.ltb_spec (d / c) n) as [H|H];
    destruct (Z.ltb_spec d (c * n)) as [H'|H']; try reflexivity; exfalso.
  - apply (Z.div_le_lower_bound d c n Hc) in H'. lia.
  - apply (Z.div_lt_upper_bound d c n Hc) in H'. lia.
Qed.

(** X10. [formatTimestamp] on a timestamp of whole milliseconds that is
    less than [2^53] ms older than the clock.  The quotients it rounds and
    floors are those of the integer division, so the label depends on the
    age [now - timestamp] alone: "Just now" below one minute, and for a
    timestamp in the future; whole minutes below one hour; whole hours
    below one day; whole days below seven days; the date of the locale
    from seven days on. *)
Theorem formatTimestamp_by_age
    (toLocaleDateString : number -> jsstring) (now timestamp : Z)
    (Hage : (now - timestamp < 2 ^ 53)%Z) :
  formatTimestamp toLocaleDateString now (Fin (inject_Z timestamp))
  = let age := (now - timestamp)%Z in
    if (age <? 60000)%Z then js "Just now"
    else if (age <? 3600000)%Z
         then integerToString (age / 60000) ++ js "m ago"
    else if (age <? 86400000)%Z
         then integerToString (age / 3600000) ++ js "h ago"
    else if (age <? 604800000)%Z
         then integerToString (age / 86400000) ++ js "d ago"
    else toLocaleDateString (Fin (inject_Z timestamp)).
Proof.
  cbv zeta. set (age := (now - timestamp)%Z) in *.
  unfold formatTimestamp.
  change lit_1000 with (Fin (inject_Z 1000)).
  change lit_60 with (Fin (inject_Z 60)).
  change lit_24 with (Fin (inject_Z 24)).
  change lit_7 with (Fin (inject_Z 7)).
  set (diff := sub (Fin (inject_Z now)) (Fin (inject_Z timestamp))).
  assert (Hdiff : diff = roundToNumber (inject_Z now - inject_Z timestamp))
    by reflexivity.
  assert (Eage : inject_Z now - inject_Z timestamp == inject_Z age).
  { unfold age, Z.sub. rewrite inject_Z_plus, inject_Z_opp. ring. }
  destruct (Z_lt_le_dec age 0) as [Hneg|Hpos].
  - (* a timestamp in the future *)
    assert (N : notPositive diff).
    { rewrite Hdiff. apply roundToNumber_notPositive. rewrite Eage.
      change 0 with (inject_Z 0). rewrite <- Zle_Qle. lia. }
    rewrite (notPositive_lt _ 60 ltac:(lia)
               (floor_div_notPositive diff 1000 ltac:(lia) N)).
    destruct (Z.ltb_spec age 60000); [reflexivity|lia].
  - destruct (roundToNumber_integer _ age (conj Hpos Hage) Eage)
      as [v [Hv Ev]].
    rewrite Hdiff, Hv.
    rewrite (floor_div_integers v age 1000 (conj Hpos Hage)
               ltac:(lia) Ev).
    assert (B1 : (0 <= age / 1000 < 2 ^ 53)%Z).
    { split; [apply Z.div_pos; lia|].
      apply Z.div_lt_upper_bound; lia. }
    rewrite (floor_div_integers _ (age / 1000) 60 B1 ltac:(lia)
               (Qeq_refl _)).
    assert (B2 : (0 <= age / 1000 / 60 < 2 ^ 53)%Z).
    { split; [apply Z.div_pos; lia|].
      apply Z.div_lt_upper_bound; lia. }
    rewrite (floor_div_integers _ (age / 1000 / 60) 60 B2 ltac:(lia)
               (Qeq_refl _)).
    assert (B3 : (0 <= age / 1000 / 60 / 60 < 2 ^ 53)%Z).
    { split; [apply Z.div_pos; lia|].
      apply Z.div_lt_upper_bound; lia. }
    rewrite (floor_div_integers _ (age / 1000 / 60 / 60) 24 B3 ltac:(lia)
               (Qeq_refl _)).
    rewrite !ltb_integers. cbn [integralToString]. rewrite !Qfloor_Z.
    rewrite !Z.div_div by lia.
    change (1000 * 60)%Z with 60000%Z.
    change (60000 * 60)%Z with 3600000%Z.
    change (3600000 * 24)%Z with 86400000%Z.
    rewrite !div_ltb by lia.
    reflexivity.
Qed.

Lemma formatTimestamp_by_age_witness :
  formatTimestamp (fun _ => js "11/14/2023") 1700000000000
    (Fin (inject_Z (1700000000000 - 7200000)))
  = js "2h ago".
Proof.
  apply (formatTimestamp_by_age (fun _ => js "11/14/2023") 1700000000000
           (1700000000000 - 7200000)).
  reflexivity.
Defined.

End Timestamps.

(* ================================================================== *)
(** ** Further properties: statuses *)
(* ================================================================== *)

Lemma storedTransactions_records (now : Clock) :
  Forall optimisticOrServerRecord (storedTransactions now).
Proof. repeat constructor; right; split; reflexivity. Qed.

Lemma filter_Forall (A : Type) (P : A -> Prop) (f : A -> bool)
    (l : list A) :
  Forall P l -> Forall P (filter f l).
Proof.
  intros H. apply Forall_forall. intros x Hx. apply filter_In in Hx.
  rewrite Forall_forall in H. now apply H.
Qed.

(** Every cached entry, and every entry of a snapshot held by a send in
    flight, is an optimistic entry or a record of the server. *)
Lemma statuses_step (s s' : State) :
  step s s' ->
  Forall optimisticOrServerRecord (stored (cache s)) ->
  Forall (fun k => Forall optimisticOrServerRecord
                     (stored (previousTransactions k))) (inflight s) ->
  Forall optimisticOrServerRecord (stored (cache s'))
  /\ Forall (fun k => Forall optimisticOrServerRecord
                        (stored (previousTransactions k))) (inflight s').
Proof.
  intros Hstep Hc Hk.
  destruct Hstep as [s now variables
                    | c before after context now rnd36
                    | c before after context message
                    | s now]; cbn [cache inflight] in *.
  - split.
    + rewrite onMutate_cache. cbn [stored]. constructor; [|exact Hc].
      left. split; [apply temporary_id_starts_temp|reflexivity].
    + constructor; [exact Hc|exact Hk].
  - apply Forall_app in Hk. destruct Hk as [Hb Ha].
    inversion Ha as [|? ? _ Ha']; subst. split.
    + rewrite onSuccess_stored. cbn [stored]. constructor.
      * right. split; reflexivity.
      * now apply filter_Forall.
    + apply Forall_app. split; assumption.
  - apply Forall_app in Hk. destruct Hk as [Hb Ha].
    inversion Ha as [|? ? Hctx Ha']; subst. split.
    + destruct context as [[previous|] variables]; cbn; [exact Hctx|exact Hc].
    + apply Forall_app. split; assumption.
  - split; [apply storedTransactions_records|exact Hk].
Qed.

Lemma statuses_reachable (s : State) :
  reachable initialState s ->
  Forall optimisticOrServerRecord (stored (cache s))
  /\ Forall (fun k => Forall optimisticOrServerRecord
                        (stored (previousTransactions k))) (inflight s).
Proof.
  induction 1 as [|s s' _ [Hc Hk] Hstep].
  - split; constructor.
  - now apply (statuses_step s s').
Qed.

(** X11. In every state the page can reach, a cached transaction is
    pending exactly when its identifier is temporary, and is completed
    otherwise: no code stores the status [failed], so the "Failed" badge
    of the list is never displayed, and the "Pending..." badge marks the
    optimistic entries and only them. *)
Theorem failed_status_never_stored (s : State) (t : Transaction.t)
    (Hreach : reachable initialState s)
    (Hshown : In t (displayedTransactions (cache s))) :
  Transaction.status t <> failed
  /\ (Transaction.status t = pending <-> isTemporary t = true)
  /\ statusBadge t <> Some (js "Failed")
  /\ (statusBadge t = Some (js "Pending...") <-> isTemporary t = true).
Proof.
  destruct (statuses_reachable s Hreach) as [Hc _].
  rewrite Forall_forall in Hc. specialize (Hc t Hshown).
  unfold statusBadge.
  destruct Hc as [[Ht Hs]|[Ht Hs]]; rewrite Hs, Ht;
    repeat split; try discriminate; try reflexivity;
    intros H; discriminate H.
Qed.

Lemma failed_status_never_stored_witness :
  let now : Clock := fun _ => 1700000000000%Z in
  let variables := SendMoneyRequest.mk (literal "25") (js "Al") in
  let t := optimisticTransaction now variables in
  Transaction.status t <> failed
  /\ (Transaction.status t = pending <-> isTemporary t = true)
  /\ statusBadge t <> Some (js "Failed")
  /\ (statusBadge t = Some (js "Pending...") <-> isTemporary t = true).
Proof.
  intros now variables t.
  apply (failed_status_never_stored
           {| cache := fst (onMutate now variables None);
              inflight := [snd (onMutate now variables None)] |} t).
  - eapply reach_step; [apply reach_init|].
    apply (step_submit initialState now variables).
  - left. reflexivity.
Defined.

(* ================================================================== *)
(** ** Further properties: the order of the list *)
(* ================================================================== *)




